(** * gitwatcher: the deploy supervisor of [main.go]

    The program polls the tip commit of the current branch every five
    seconds ([main], [check]) and, when the hash changes, starts a goroutine
    ([runDeploy]) that cancels and kills the previous deployment, pulls the
    source and runs the deploy command, retrying after [retryDelay].

    The embedding is a small-step interleaving semantics.  Every goroutine
    has a program point (a line of [main.go]) with its live locals; the
    package-level variables, the contexts and the [exec.Cmd] objects form
    the shared memory.  One step executes one statement of one goroutine.
    The operating system, git and the network answer through a [reply]
    that the step receives, so a run is a function of a schedule: the list
    of (goroutine, reply) pairs.  Each step returns the events it performs
    (log lines, system calls, sleeps, accesses to the shared variables). *)

From Stdlib Require Import ZArith String Ascii List Lia Bool.
From stdpp Require Import base option list strings.

Local Open Scope string_scope.
Local Open Scope Z_scope.
Local Open Scope list_scope.

(** ** Strings: the functions of package [strings] that the program calls *)

Module GoStrings.

(** The ASCII white space of [strings.TrimSpace]: tab, line feed, vertical
    tab, form feed, carriage return and space.  Commit hashes, branch
    names and remote URLs are ASCII; the white space that Unicode defines
    beyond U+007F is left alone here. *)
Definition isSpace (c : ascii) : bool :=
  match nat_of_ascii c with
  | 9%nat | 10%nat | 11%nat | 12%nat | 13%nat | 32%nat => true
  | _ => false
  end.

Fixpoint TrimLeft (s : string) : string :=
  match s with
  | String c r => if isSpace c then TrimLeft r else s
  | EmptyString => EmptyString
  end.

Fixpoint rev (acc s : string) : string :=
  match s with
  | String c r => rev (String c acc) r
  | EmptyString => acc
  end.

Definition TrimSpace (s : string) : string :=
  rev "" (TrimLeft (rev "" (TrimLeft s))).

Fixpoint HasPrefix (s p : string) : bool :=
  match p, s with
  | EmptyString, _ => true
  | String a p', String b s' => Ascii.eqb a b && HasPrefix s' p'
  | String _ _, EmptyString => false
  end.

Fixpoint drop (n : nat) (s : string) : string :=
  match n, s with
  | S n', String _ r => drop n' r
  | _, _ => s
  end.

(** [TrimSuffix s suffix]: [s] without the trailing [suffix], when it has
    it. *)
Definition TrimSuffix (s suffix : string) : string :=
  if HasPrefix (rev "" s) (rev "" suffix)
  then rev "" (drop (String.length suffix) (rev "" s))
  else s.

(** [Replace s old new 1]: the first occurrence of [old] replaced. *)
Fixpoint Replace1 (s old new : string) : string :=
  if HasPrefix s old then new +:+ drop (String.length old) s
  else match s with
       | String c r => String c (Replace1 r old new)
       | EmptyString => EmptyString
       end.

End GoStrings.

(** ** Events *)

(** The package-level variables the goroutines share. *)
Inductive field := F_lastSHA | F_deployCtx | F_deployCancel | F_deployProcess.

Inductive access := Read | Write.

Definition SIGKILL : Z := 9.

Inductive event :=
| ELog (msg : string)                        (* log.Println *)
| EFatal (msg : string)                      (* log.Fatal: print, os.Exit(1) *)
| EPanic                                     (* nil dereference *)
| EExec (argv : list string)                 (* exec.Command(...).Output() *)
| EGet (url authorization : string)          (* client.Do *)
| ECloseBody                                 (* the deferred resp.Body.Close() *)
| ESleep (d : Z)                             (* time.Sleep, in nanoseconds *)
| EGo                                        (* go runDeploy() *)
| ELock
| EUnlock
| ECancel (ctx : nat)                        (* deployCancel() *)
| EWithCancel (ctx : nat)                    (* context.WithCancel *)
| EGetpgid (pid : Z)
| EKill (target sig : Z)                     (* syscall.Kill *)
| EWait (cmd : nat)                          (* deployProcess.Wait() *)
| EPull (ctx : nat)                          (* git pull started under ctx *)
| EStart (cmd : nat) (pid : Z)               (* the deploy command started *)
| EExited (cmd : nat) (ok : bool)            (* the deploy command is over *)
| EAccess (f : field) (a : access) (locked : bool).
                      (* a shared variable is read or written; [locked] tells
                         whether the goroutine holds [mu] at that moment *)

(** ** What the environment answers *)

(** The response of the hosting API: its status code and what
    [json.NewDecoder(resp.Body).Decode(&data)] makes of the body: [None]
    when it returns an error, otherwise the value of [data.SHA] afterwards,
    which is the zero value [""] when the document has no "sha" member. *)
Record Response := { StatusCode : Z; Decode : option string }.

Record reply := {
  r_branch : option string;    (* git rev-parse --abbrev-ref HEAD; None: err *)
  r_remote : option string;    (* git config --get remote.origin.url *)
  r_request : bool;            (* http.NewRequest parsed the URL *)
  r_do : option Response;      (* client.Do; None: err *)
  r_pgid : option Z;           (* syscall.Getpgid; None: err *)
  r_pull : bool;               (* git pull exits with status 0 *)
  r_start : option Z;          (* cmd.Start: the pid; None: err *)
  r_exit : bool                (* the deploy command exits with status 0 *)
}.

(** ** The shared memory *)

(** An [exec.Cmd] made by [exec.CommandContext(ctx, "sh", "-c", line)]. *)
Record Cmd := {
  cmd_ctx : nat;
  cmd_line : string;
  Setpgid : bool;
  Process : option Z           (* nil until Start succeeds, then the pid *)
}.

Record globals := {
  tokenFlag : string;
  deployCmd : string;
  lastSHA : string;
  mu : option nat;             (* the goroutine inside mu.Lock ... mu.Unlock *)
  deployCtx : option nat;      (* nil, or a context of [contexts] *)
  deployCancel : option nat;   (* nil, or the cancel function of a context *)
  deployProcess : option nat;  (* nil, or a pointer into [cmds] *)
  contexts : list bool;        (* per context: is it cancelled *)
  cmds : list Cmd;
  exited : option Z            (* the exit status once the process is over *)
}.

Definition Second : Z := 1000000000.
Definition StatusOK : Z := 200.
Definition retryDelay : Z := 10 * Second.

Definition set_lastSHA (v : string) (g : globals) : globals :=
  {| tokenFlag := tokenFlag g; deployCmd := deployCmd g; lastSHA := v;
     mu := mu g; deployCtx := deployCtx g; deployCancel := deployCancel g;
     deployProcess := deployProcess g; contexts := contexts g;
     cmds := cmds g; exited := exited g |}.

Definition set_mu (v : option nat) (g : globals) : globals :=
  {| tokenFlag := tokenFlag g; deployCmd := deployCmd g; lastSHA := lastSHA g;
     mu := v; deployCtx := deployCtx g; deployCancel := deployCancel g;
     deployProcess := deployProcess g; contexts := contexts g;
     cmds := cmds g; exited := exited g |}.

Definition set_deployProcess (v : option nat) (g : globals) : globals :=
  {| tokenFlag := tokenFlag g; deployCmd := deployCmd g; lastSHA := lastSHA g;
     mu := mu g; deployCtx := deployCtx g; deployCancel := deployCancel g;
     deployProcess := v; contexts := contexts g;
     cmds := cmds g; exited := exited g |}.

Definition set_contexts (v : list bool) (g : globals) : globals :=
  {| tokenFlag := tokenFlag g; deployCmd := deployCmd g; lastSHA := lastSHA g;
     mu := mu g; deployCtx := deployCtx g; deployCancel := deployCancel g;
     deployProcess := deployProcess g; contexts := v;
     cmds := cmds g; exited := exited g |}.

Definition set_cmds (v : list Cmd) (g : globals) : globals :=
  {| tokenFlag := tokenFlag g; deployCmd := deployCmd g; lastSHA := lastSHA g;
     mu := mu g; deployCtx := deployCtx g; deployCancel := deployCancel g;
     deployProcess := deployProcess g; contexts := contexts g;
     cmds := v; exited := exited g |}.

Definition set_exited (v : option Z) (g : globals) : globals :=
  {| tokenFlag := tokenFlag g; deployCmd := deployCmd g; lastSHA := lastSHA g;
     mu := mu g; deployCtx := deployCtx g; deployCancel := deployCancel g;
     deployProcess := deployProcess g; contexts := contexts g;
     cmds := cmds g; exited := v |}.

(** [deployCtx, deployCancel = context.WithCancel(context.Background())]:
    a fresh context, not cancelled, stored in both variables. *)
Definition WithCancel (g : globals) : nat * globals :=
  let c := length (contexts g) in
  (c, {| tokenFlag := tokenFlag g; deployCmd := deployCmd g;
         lastSHA := lastSHA g; mu := mu g;
         deployCtx := Some c; deployCancel := Some c;
         deployProcess := deployProcess g;
         contexts := contexts g ++ [false];
         cmds := cmds g; exited := exited g |}).

(** [<-ctx.Done()] is ready: the context has been cancelled. *)
Definition Done (g : globals) (c : nat) : bool :=
  match contexts g !! c with Some b => b | None => false end.

(** Does goroutine [t] hold the mutex. *)
Definition holds (g : globals) (t : nat) : bool :=
  match mu g with Some h => Nat.eqb h t | None => false end.

(** ** One statement of a goroutine *)

(** What a statement does: the memory after it, the program point where the
    goroutine continues ([None]: the function has returned, or the process
    is over), the events in order, and whether a [go] statement ran. *)
Record next (P : Type) := Next {
  n_mem : globals;
  n_pc : option P;
  n_events : list event;
  n_go : bool
}.
Arguments Next {P}.
Arguments n_mem {P}.
Arguments n_pc {P}.
Arguments n_events {P}.
Arguments n_go {P}.

Definition goto {P} (g : globals) (p : P) (evs : list event) : next P :=
  Next g (Some p) evs false.

Definition ret {P} (g : globals) (evs : list event) : next P :=
  Next g None evs false.

(** A nil dereference, or unlocking an unlocked mutex: the Go runtime stops
    the whole process with status 2. *)
Definition panic {P} (g : globals) (evs : list event) : next P :=
  Next (set_exited (Some 2) g) None (evs ++ [EPanic]) false.

(** *** [getCurrentBranch] and [getRepoOwnerAndName] *)

Definition getCurrentBranch (r : reply) : option string :=
  match r_branch r with
  | None => None
  | Some out => Some (GoStrings.TrimSpace out)
  end.

Definition getRepoOwnerAndName (r : reply) : option string :=
  match r_remote r with
  | None => None
  | Some out =>
      let url := GoStrings.TrimSpace out in
      let url := GoStrings.TrimSuffix url ".git" in
      let url := GoStrings.Replace1 url "git@github.com:" "" in
      let url := GoStrings.Replace1 url "https://github.com/" "" in
      Some url
  end.

(** *** [check] *)

(** The program points of [check], with the locals that are live there. *)
Inductive check_pc :=
| C_branch                               (* line 64 *)
| C_remote (branch : string)             (* line 70 *)
| C_request (branch repoURL : string)    (* lines 76-79 *)
| C_do (apiURL : string)                 (* lines 81-102 *)
| C_compare (currentSHA : string)        (* line 103 *)
| C_store (currentSHA : string)          (* lines 107-108 *)
| C_go.                                  (* line 110 *)

Definition check (r : reply) (t : nat) (p : check_pc) (g : globals)
  : next check_pc :=
  match p with
  | C_branch =>
      let ev := EExec ["git"; "rev-parse"; "--abbrev-ref"; "HEAD"] in
      match getCurrentBranch r with
      | None => ret g [ev; ELog "cannot get current branch:"]
      | Some branch => goto g (C_remote branch) [ev]
      end
  | C_remote branch =>
      let ev := EExec ["git"; "config"; "--get"; "remote.origin.url"] in
      match getRepoOwnerAndName r with
      | None => ret g [ev; ELog "cannot get repo owner/name:"]
      | Some repoURL => goto g (C_request branch repoURL) [ev]
      end
  | C_request branch repoURL =>
      let apiURL :=
        "https://api.github.com/repos/" +:+ repoURL +:+ "/commits/" +:+ branch in
      (* req, _ := http.NewRequest(...): the error is dropped, and
         req.Header.Set dereferences req *)
      if r_request r then goto g (C_do apiURL) [] else panic g []
  | C_do apiURL =>
      let ev := EGet apiURL ("Bearer " +:+ tokenFlag g) in
      match r_do r with
      | None => ret g [ev; ELog "request error:"]
      | Some resp =>
          if negb (Z.eqb (StatusCode resp) StatusOK)
          then ret g [ev; ELog "bad status:"; ECloseBody]
          else match Decode resp with
               | None => ret g [ev; ELog "decode error:"; ECloseBody]
               | Some SHA => goto g (C_compare (GoStrings.TrimSpace SHA)) [ev]
               end
      end
  | C_compare currentSHA =>
      let ev := EAccess F_lastSHA Read (holds g t) in
      if String.eqb currentSHA (lastSHA g)
      then ret g [ev; ECloseBody]
      else goto g (C_store currentSHA) [ev]
  | C_store currentSHA =>
      let g' := set_lastSHA currentSHA g in
      goto g' C_go
        [EAccess F_lastSHA Write (holds g t);
         EAccess F_lastSHA Read (holds g t);
         ELog ("New commit detected: " +:+ lastSHA g')]
  | C_go => Next g None [EGo; ECloseBody] true
  end.

(** *** [main] *)

Inductive main_pc :=
| M_parse                                (* lines 32-35 *)
| M_check (p : check_pc)                 (* line 38, inside check() *)
| M_sleep.                               (* line 39 *)

Definition main (r : reply) (t : nat) (p : main_pc) (g : globals)
  : next main_pc :=
  match p with
  | M_parse =>
      if String.eqb (tokenFlag g) "" || String.eqb (deployCmd g) ""
      then Next (set_exited (Some 1) g) None
             [EFatal "flags -token and -deploy are required"] false
      else goto g (M_check C_branch) []
  | M_check p =>
      let n := check r t p g in
      match n_pc n, exited (n_mem n) with
      | Some p', _ => Next (n_mem n) (Some (M_check p')) (n_events n) (n_go n)
      | None, None => Next (n_mem n) (Some M_sleep) (n_events n) (n_go n)
      | None, Some _ => Next (n_mem n) None (n_events n) (n_go n)
      end
  | M_sleep => goto g (M_check C_branch) [ESleep (5 * Second)]
  end.

(** *** [runDeploy] *)

Inductive deploy_pc :=
| D_lock                                 (* line 114 *)
| D_cancel                               (* lines 115-118 *)
| D_process                              (* lines 119-122 *)
| D_kill (pgid : Z)                      (* line 123 *)
| D_wait                                 (* line 125 *)
| D_pause                                (* line 126 *)
| D_context                              (* line 128 *)
| D_unlock                               (* line 129 *)
| D_select                               (* lines 132-137 *)
| D_pull                                 (* line 139: the command is started *)
| D_pulling (ctx : nat)                  (* line 139: Run waits for git *)
| D_pull_backoff                         (* lines 141-142 *)
| D_command                              (* lines 145-148 *)
| D_lock2 (cmd : nat)                    (* line 150 *)
| D_track (cmd : nat)                    (* line 151 *)
| D_unlock2 (cmd : nat)                  (* line 152 *)
| D_start (cmd : nat)                    (* line 154: cmd.Run starts sh *)
| D_running (cmd : nat)                  (* line 154: cmd.Run waits for it *)
| D_run_backoff.                         (* lines 156-157 *)

(** [deployProcess.Process] where [deployProcess] is not nil. *)
Definition Process_of (g : globals) (p : nat) : option Z :=
  match cmds g !! p with
  | Some c => Process c
  | None => None
  end.

Definition start_cmd (pid : Z) (c : Cmd) : Cmd :=
  {| cmd_ctx := cmd_ctx c; cmd_line := cmd_line c; Setpgid := Setpgid c;
     Process := Some pid |}.

(** [None]: the statement cannot run now ([mu.Lock] while the mutex is
    held). *)
Definition runDeploy (r : reply) (t : nat) (p : deploy_pc) (g : globals)
  : option (next deploy_pc) :=
  match p with
  | D_lock =>
      match mu g with
      | None => Some (goto (set_mu (Some t) g) D_cancel [ELock])
      | Some _ => None
      end
  | D_cancel =>
      let ev := EAccess F_deployCancel Read (holds g t) in
      match deployCancel g with
      | Some c =>
          Some (goto (set_contexts (<[c := true]> (contexts g)) g) D_process
                  [ev; ELog "Cancelling previous deploy..."; ECancel c])
      | None => Some (goto g D_process [ev])
      end
  | D_process =>
      let ev := EAccess F_deployProcess Read (holds g t) in
      match deployProcess g with
      | Some p =>
          match Process_of g p with
          | Some pid =>
              let evs := [ev; ELog "Killing previous server process group...";
                          EGetpgid pid] in
              match r_pgid r with
              | Some pgid => Some (goto g (D_kill pgid) evs)
              | None => Some (goto g D_wait evs)
              end
          | None => Some (goto g D_context [ev])
          end
      | None => Some (goto g D_context [ev])
      end
  | D_kill pgid => Some (goto g D_wait [EKill (- pgid) SIGKILL])
  | D_wait =>
      let ev := EAccess F_deployProcess Read (holds g t) in
      match deployProcess g with
      | Some p => Some (goto g D_pause [ev; EWait p])
      | None => Some (panic g [ev])
      end
  | D_pause => Some (goto g D_context [ESleep (2 * Second)])
  | D_context =>
      let '(c, g') := WithCancel g in
      Some (goto g' D_unlock
              [EWithCancel c;
               EAccess F_deployCtx Write (holds g t);
               EAccess F_deployCancel Write (holds g t)])
  | D_unlock =>
      match mu g with
      | Some _ => Some (goto (set_mu None g) D_select [EUnlock])
      | None => Some (panic g [])
      end
  | D_select =>
      let ev := EAccess F_deployCtx Read (holds g t) in
      match deployCtx g with
      | Some c =>
          if Done g c then Some (ret g [ev; ELog "Deploy cancelled"])
          else Some (goto g D_pull [ev; ELog "Starting deploy..."])
      | None => Some (panic g [ev])
      end
  | D_pull =>
      let ev := EAccess F_deployCtx Read (holds g t) in
      match deployCtx g with
      | Some c =>
          (* Start refuses a context that is already done *)
          if Done g c
          then Some (goto g D_pull_backoff [ev; ELog "git pull failed:"])
          else Some (goto g (D_pulling c) [ev; EPull c])
      | None => Some (panic g [ev])
      end
  | D_pulling c =>
      if r_pull r then Some (goto g D_command [])
      else Some (goto g D_pull_backoff [ELog "git pull failed:"])
  | D_pull_backoff => Some (goto g D_select [ESleep retryDelay])
  | D_command =>
      let ev := EAccess F_deployCtx Read (holds g t) in
      match deployCtx g with
      | Some c =>
          let cmd := {| cmd_ctx := c; cmd_line := deployCmd g;
                        Setpgid := true; Process := None |} in
          Some (goto (set_cmds (cmds g ++ [cmd]) g)
                  (D_lock2 (length (cmds g))) [ev])
      | None => Some (panic g [ev])
      end
  | D_lock2 cmd =>
      match mu g with
      | None => Some (goto (set_mu (Some t) g) (D_track cmd) [ELock])
      | Some _ => None
      end
  | D_track cmd =>
      Some (goto (set_deployProcess (Some cmd) g) (D_unlock2 cmd)
              [EAccess F_deployProcess Write (holds g t)])
  | D_unlock2 cmd =>
      match mu g with
      | Some _ => Some (goto (set_mu None g) (D_start cmd) [EUnlock])
      | None => Some (panic g [])
      end
  | D_start cmd =>
      let failed := goto g D_run_backoff [ELog "deploy command failed:"] in
      match cmds g !! cmd with
      | Some c =>
          if Done g (cmd_ctx c) then Some failed
          else match r_start r with
               | Some pid =>
                   Some (goto (set_cmds (<[cmd := start_cmd pid c]> (cmds g)) g)
                           (D_running cmd) [EStart cmd pid])
               | None => Some failed
               end
      | None => Some (panic g [])
      end
  | D_running cmd =>
      if r_exit r
      then Some (ret g [EExited cmd true; ELog "Deploy finished successfully"])
      else Some (goto g D_run_backoff
                   [EExited cmd false; ELog "deploy command failed:"])
  | D_run_backoff => Some (goto g D_select [ESleep retryDelay])
  end.

(** ** The process: all goroutines over the shared memory *)

Inductive goroutine :=
| Main (p : main_pc)
| Deploy (p : deploy_pc)
| Returned.

Record config := { mem : globals; pool : list goroutine }.

Definition resume {P} (inj : P -> goroutine) (o : option P) : goroutine :=
  match o with Some p => inj p | None => Returned end.

Definition commit {P} (inj : P -> goroutine) (t : nat) (n : next P)
  (c : config) : config * list (nat * event) :=
  let pool' := <[t := resume inj (n_pc n)]> (pool c) in
  ({| mem := n_mem n;
      pool := if n_go n then pool' ++ [Deploy D_lock] else pool' |},
   map (pair t) (n_events n)).

(** One statement of goroutine [t]; [None] when [t] cannot run: it has
    returned, it waits for the mutex, or the process is over. *)
Definition step (t : nat) (r : reply) (c : config)
  : option (config * list (nat * event)) :=
  match exited (mem c) with
  | Some _ => None
  | None =>
      match pool c !! t with
      | Some (Main p) => Some (commit Main t (main r t p (mem c)) c)
      | Some (Deploy p) =>
          match runDeploy r t p (mem c) with
          | Some n => Some (commit Deploy t n c)
          | None => None
          end
      | Some Returned | None => None
      end
  end.

(** A schedule names, statement after statement, the goroutine that runs
    and what the environment answers.  An entry whose goroutine cannot run
    is skipped. *)
Fixpoint run (s : list (nat * reply)) (c : config)
  : config * list (nat * event) :=
  match s with
  | [] => (c, [])
  | (t, r) :: s' =>
      match step t r c with
      | Some (c', evs) => let '(c'', tr) := run s' c' in (c'', evs ++ tr)
      | None => run s' c
      end
  end.

(** The process when it starts, with the values that [flag.Parse] will
    find for [-token] and [-deploy]. *)
Definition start (token deploy : string) : config :=
  {| mem := {| tokenFlag := token; deployCmd := deploy; lastSHA := "";
               mu := None; deployCtx := None; deployCancel := None;
               deployProcess := None; contexts := []; cmds := [];
               exited := None |};
     pool := [Main M_parse] |}.

(** Goroutine [t] alone, statement after statement with the answers of
    [r], until it stands at a program point that [stop] accepts, cannot
    run, or [fuel] statements have run.  The first statement always runs,
    so a loop can be driven from its head back to its head. *)
Fixpoint drive (stop : goroutine -> bool) (fuel : nat) (t : nat) (r : reply)
  (c : config) : config * list (nat * event) :=
  match fuel with
  | O => (c, [])
  | S fuel' =>
      match step t r c with
      | None => (c, [])
      | Some (c', evs) =>
          match pool c' !! t with
          | Some gr =>
              if stop gr then (c', evs)
              else let '(c'', tr) := drive stop fuel' t r c' in (c'', evs ++ tr)
          | None => (c', evs)
          end
      end
  end.

Definition at_loop (gr : goroutine) : bool :=
  match gr with Main (M_check C_branch) | Returned => true | _ => false end.

Definition at_select (gr : goroutine) : bool :=
  match gr with Deploy D_select | Returned => true | _ => false end.

(** One turn of the loop of [main] (lines 37 to 40) by goroutine 0: a call
    of [check()] from line 64 to its return, then the five-second sleep. *)
Definition poll (r : reply) (c : config) : config * list (nat * event) :=
  drive at_loop 9 0 r c.

(** Polls one after the other, each with its own answers. *)
Fixpoint polls (rs : list reply) (c : config) : config :=
  match rs with
  | [] => c
  | r :: rs' => polls rs' (fst (poll r c))
  end.

(** [runDeploy] from its first line to the head of its loop (lines 114 to
    129): the previous deployment is torn down and the new context made. *)
Definition teardown (t : nat) (r : reply) (c : config)
  : config * list (nat * event) :=
  drive at_select 9 t r c.

(** One turn of the loop of [runDeploy] (lines 131 to 163), from the
    [select] back to it, or to the return. *)
Definition attempt (t : nat) (r : reply) (c : config)
  : config * list (nat * event) :=
  drive at_select 11 t r c.

(** Turns of that loop one after the other, each with its own answers. *)
Fixpoint attempts (t : nat) (rs : list reply) (c : config)
  : config * list (nat * event) :=
  match rs with
  | [] => (c, [])
  | r :: rs' =>
      let '(c', tr) := attempt t r c in
      let '(c'', tr') := attempts t rs' c' in
      (c'', tr ++ tr')
  end.

(** ** Vocabulary of the statements *)

(** The configuration with memory [g] where goroutine [t] of pool [l]
    stands at [gr]. *)
Definition at_pc (g : globals) (l : list goroutine) (t : nat)
  (gr : goroutine) : config :=
  {| mem := g; pool := <[t := gr]> l |}.

(** The events of a trace, without the goroutines. *)
Definition events (tr : list (nat * event)) : list event := map snd tr.

Definition count (f : event -> bool) (tr : list (nat * event)) : nat :=
  length (filter f (events tr)).

Definition is_go (e : event) : bool :=
  match e with EGo => true | _ => false end.

Definition is_store (e : event) : bool :=
  match e with EAccess F_lastSHA Write _ => true | _ => false end.

Definition is_kill (e : event) : bool :=
  match e with EKill _ _ => true | _ => false end.

Definition is_panic (e : event) : bool :=
  match e with EPanic | EFatal _ => true | _ => false end.

(** What a goroutine does to processes, to time and to the contexts. *)
Definition is_effect (e : event) : bool :=
  match e with
  | EGetpgid _ | EKill _ _ | EWait _ | ESleep _ | EWithCancel _ => true
  | _ => false
  end.

(** The phases of a deploy attempt, as its events show them. *)
Inductive phase :=
| Pull
| Launch
| Exit (ok : bool)
| Backoff (d : Z).

Definition phase_of (e : event) : option phase :=
  match e with
  | EPull _ => Some Pull
  | EStart _ _ => Some Launch
  | EExited _ ok => Some (Exit ok)
  | ESleep d => Some (Backoff d)
  | _ => None
  end.

Definition phases (tr : list (nat * event)) : list phase :=
  omap phase_of (events tr).

(** The phases of one turn of the retry loop whose command, when it runs,
    exits with a nonzero status. *)
Definition failing_turn (r : reply) : list phase :=
  if r_pull r
  then match r_start r with
       | Some _ => [Pull; Launch; Exit false; Backoff retryDelay]
       | None => [Pull; Backoff retryDelay]
       end
  else [Pull; Backoff retryDelay].

(** The poll with answers [r] gets through every stage of [check] up to
    line 102 and fetches the hash [sha]. *)
Definition fetches (r : reply) (sha : string) : Prop :=
  is_Some (r_branch r) /\ is_Some (r_remote r) /\ r_request r = true /\
  exists resp SHA,
    r_do r = Some resp /\ StatusCode resp = StatusOK /\
    Decode resp = Some SHA /\ sha = GoStrings.TrimSpace SHA.

(** The poll with answers [r] fails at one of the stages that [check]
    reports: lines 66, 72, 84, 90 and 98. *)
Inductive skipped (r : reply) : Prop :=
| skip_branch : r_branch r = None -> skipped r
| skip_remote : is_Some (r_branch r) -> r_remote r = None -> skipped r
| skip_request :
    is_Some (r_branch r) -> is_Some (r_remote r) -> r_request r = true ->
    r_do r = None -> skipped r
| skip_status resp :
    is_Some (r_branch r) -> is_Some (r_remote r) -> r_request r = true ->
    r_do r = Some resp -> StatusCode resp <> StatusOK -> skipped r
| skip_decode resp :
    is_Some (r_branch r) -> is_Some (r_remote r) -> r_request r = true ->
    r_do r = Some resp -> StatusCode resp = StatusOK ->
    Decode resp = None -> skipped r.

(** The two sleeps of the retry loop. *)
Definition backoff (p : deploy_pc) : bool :=
  match p with D_pull_backoff | D_run_backoff => true | _ => false end.

(** The program points between [mu.Lock()] and [mu.Unlock()]. *)
Definition critical (p : deploy_pc) : bool :=
  match p with
  | D_cancel | D_process | D_kill _ | D_wait | D_pause | D_context | D_unlock
  | D_track _ | D_unlock2 _ => true
  | _ => false
  end.

(** The locking discipline that the program follows: [lastSHA] belongs to
    goroutine 0, which touches it without the mutex; [deployCancel] and
    [deployProcess] are read and written, and [deployCtx] is written, with
    the mutex held. *)
Definition disciplined (te : nat * event) : Prop :=
  match te with
  | (t, EAccess F_lastSHA _ locked) => t = 0%nat /\ locked = false
  | (_, EAccess F_deployCtx Write locked) => locked = true
  | (_, EAccess F_deployCancel _ locked) => locked = true
  | (_, EAccess F_deployProcess _ locked) => locked = true
  | _ => True
  end.

(** What the mutex tells about goroutine [t] standing at [gr]: between
    [mu.Lock()] and [mu.Unlock()] it is the holder, elsewhere it is not;
    [main] runs in goroutine 0 only. *)
Definition owns (g : globals) (t : nat) (gr : goroutine) : Prop :=
  match gr with
  | Main _ => t = 0%nat /\ mu g <> Some t
  | Deploy p => if critical p then mu g = Some t else mu g <> Some t
  | Returned => mu g <> Some t
  end.

Definition lock_invariant (c : config) : Prop :=
  exited (mem c) = None ->
  (forall h, mu (mem c) = Some h -> (h < length (pool c))%nat) /\
  (forall t gr, pool c !! t = Some gr -> owns (mem c) t gr).

(** ** Sample configurations and answers *)

(** A deployment that ran and whose process 4242 is known to the system,
    while goroutine 2 starts the next deploy. *)
Definition deployed : config :=
  {| mem := {| tokenFlag := "tok"; deployCmd := "make run";
               lastSHA := "def456"; mu := None;
               deployCtx := Some 0%nat; deployCancel := Some 0%nat;
               deployProcess := Some 0%nat; contexts := [false];
               cmds := [{| cmd_ctx := 0; cmd_line := "make run";
                           Setpgid := true; Process := Some 4242 |}];
               exited := None |};
     pool := [Main M_sleep; Deploy (D_running 0); Deploy D_lock] |}.

Definition no_answer : reply :=
  {| r_branch := None; r_remote := None; r_request := false; r_do := None;
     r_pgid := None; r_pull := false; r_start := None; r_exit := false |}.

Definition with_pgid (pgid : option Z) (r : reply) : reply :=
  {| r_branch := r_branch r; r_remote := r_remote r;
     r_request := r_request r; r_do := r_do r; r_pgid := pgid;
     r_pull := r_pull r; r_start := r_start r; r_exit := r_exit r |}.

(** The process at the head of the loop of [main], before its first poll. *)
Definition polling : config :=
  {| mem := mem (start "tok" "make run");
     pool := [Main (M_check C_branch)] |}.

(** The answers of a poll that succeeds, with [SHA] in the body. *)
Definition answer (SHA : string) : reply :=
  {| r_branch := Some "main";
     r_remote := Some "git@github.com:fess932/gitwatcher.git";
     r_request := true;
     r_do := Some {| StatusCode := 200; Decode := Some SHA |};
     r_pgid := Some 4242; r_pull := true; r_start := Some 4242;
     r_exit := false |}.

(** What [log.Fatal] prints at line 34. *)
Definition fatal : event := EFatal "flags -token and -deploy are required".

(** A run in which a deploy is superseded while it sleeps in backoff.
    Goroutine 0 parses the flags and polls "abc123"; goroutine 1 deploys it
    and the command exits with a nonzero status (line 155), so goroutine 1
    is at the sleep of line 156; goroutine 0 polls "def456" and goroutine 2
    cancels the context of goroutine 1 (line 117). *)
Definition superseded_in_backoff : list (nat * reply) :=
  replicate 8 (0%nat, answer "abc123") ++
  replicate 14 (1%nat, answer "abc123") ++
  replicate 8 (0%nat, answer "def456") ++
  replicate 2 (2%nat, answer "def456").

(** Goroutine 2 then finishes lines 119 to 129 ([Getpgid] fails: the
    process has exited and [cmd.Run] has reaped it), and goroutine 1 wakes
    up and takes three statements. *)
Definition then_wakes_up : list (nat * reply) :=
  replicate 5 (2%nat, with_pgid None (answer "def456")) ++
  replicate 3 (1%nat, answer "abc123").

(** The configuration and the trace at the end of
    [superseded_in_backoff]. *)
Definition superseded : config :=
  Eval vm_compute in fst (run superseded_in_backoff (start "tok" "make run")).

Definition superseded_trace : list (nat * event) :=
  Eval vm_compute in snd (run superseded_in_backoff (start "tok" "make run")).

(** ** Vocabulary of the further properties *)

(** A string of ASCII white space only. *)
Fixpoint all_space (s : string) : bool :=
  match s with
  | String c r => GoStrings.isSpace c && all_space r
  | EmptyString => true
  end.

(** [old] occurs somewhere in [s]. *)
Fixpoint occurs (old s : string) : bool :=
  GoStrings.HasPrefix s old ||
  match s with
  | String _ r => occurs old r
  | EmptyString => false
  end.

Definition is_get (e : event) : bool :=
  match e with EGet _ _ => true | _ => false end.

Definition is_lock (e : event) : bool :=
  match e with ELock | EUnlock => true | _ => false end.

(** The mutex operations together with what [is_effect] selects. *)
Definition in_section (e : event) : bool := is_lock e || is_effect e.

(** The request that [check] sends (lines 76 to 82), if it gets that far. *)
Definition request_of (r : reply) (g : globals) : list event :=
  match getCurrentBranch r, getRepoOwnerAndName r with
  | Some branch, Some repoURL =>
      if r_request r
      then [EGet ("https://api.github.com/repos/" +:+ repoURL +:+
                  "/commits/" +:+ branch)
                 ("Bearer " +:+ tokenFlag g)]
      else []
  | _, _ => []
  end.

(** The phases of a turn of the retry loop whose pull succeeds. *)
Definition launched_turn (r : reply) : list phase :=
  match r_start r with
  | Some _ =>
      if r_exit r then [Pull; Launch; Exit true]
      else [Pull; Launch; Exit false; Backoff retryDelay]
  | None => [Pull; Backoff retryDelay]
  end.

(** Where the goroutine stands after that turn. *)
Definition after_launch (r : reply) : goroutine :=
  match r_start r with
  | Some _ => if r_exit r then Returned else Deploy D_select
  | None => Deploy D_select
  end.

(** What the memory never loses from one moment to a later one: a
    variable that is not nil stays so, a started command keeps a process,
    the lists of commands and contexts do not shrink, a cancelled context
    stays cancelled, and the flags keep their values. *)
Definition grows (g g' : globals) : Prop :=
  (is_Some (deployCtx g) -> is_Some (deployCtx g')) /\
  (is_Some (deployCancel g) -> is_Some (deployCancel g')) /\
  (is_Some (deployProcess g) -> is_Some (deployProcess g')) /\
  (forall p, is_Some (Process_of g p) -> is_Some (Process_of g' p)) /\
  (length (cmds g) <= length (cmds g'))%nat /\
  (length (contexts g) <= length (contexts g'))%nat /\
  (forall i, Done g i = true -> Done g' i = true) /\
  tokenFlag g' = tokenFlag g /\ deployCmd g' = deployCmd g.

(** A statement of [main] leaves the variables of [runDeploy] alone. *)
Definition same_deploy (g g' : globals) : Prop :=
  mu g' = mu g /\ deployCtx g' = deployCtx g /\
  deployCancel g' = deployCancel g /\ deployProcess g' = deployProcess g /\
  contexts g' = contexts g /\ cmds g' = cmds g /\
  tokenFlag g' = tokenFlag g /\ deployCmd g' = deployCmd g.

(** The program points after line 128: the goroutine has made its
    context. *)
Definition past_context (p : deploy_pc) : bool :=
  match p with
  | D_lock | D_cancel | D_process | D_kill _ | D_wait | D_pause | D_context =>
      false
  | _ => true
  end.

(** Lines 119 to 128: after [deployCancel()], before the new context. *)
Definition after_cancel (p : deploy_pc) : bool :=
  match p with
  | D_process | D_kill _ | D_wait | D_pause | D_context => true
  | _ => false
  end.

(** Lines 123 to 125, which dereference [deployProcess]. *)
Definition in_kill_block (p : deploy_pc) : bool :=
  match p with D_kill _ | D_wait => true | _ => false end.

(** The command a goroutine holds in its local [cmd]. *)
Definition the_cmd (p : deploy_pc) : option nat :=
  match p with
  | D_lock2 c | D_track c | D_unlock2 c | D_start c | D_running c => Some c
  | _ => None
  end.

(** What the statement at [p] dereferences is there. *)
Definition relies (g : globals) (p : deploy_pc) : Prop :=
  (past_context p = true -> is_Some (deployCtx g)) /\
  (in_kill_block p = true -> is_Some (deployProcess g)) /\
  (forall c, the_cmd p = Some c -> (c < length (cmds g))%nat).

(** [deployCancel] cancels the context of [deployCtx], which is the last
    one made; every older context is cancelled, and so is the last one
    while a goroutine is between lines 119 and 128. *)
Definition one_live (c : config) : Prop :=
  deployCancel (mem c) = deployCtx (mem c) /\
  match deployCtx (mem c) with
  | None => contexts (mem c) = []
  | Some k => length (contexts (mem c)) = S k
  end /\
  (forall i, (S i < length (contexts (mem c)))%nat ->
             contexts (mem c) !! i = Some true) /\
  (forall t p, pool c !! t = Some (Deploy p) -> after_cancel p = true ->
     forall i, (i < length (contexts (mem c)))%nat ->
               contexts (mem c) !! i = Some true).

Definition sound (c : config) : Prop :=
  exited (mem c) = None ->
  (forall t p, pool c !! t = Some (Deploy p) -> relies (mem c) p) /\
  one_live c.

(** A panic or a fatal error is an event of goroutine 0. *)
Definition no_panic_in_deploy (te : nat * event) : Prop :=
  is_panic (snd te) = true -> fst te = 0%nat.

(** The hash that goroutine 0 carries between lines 102 and 107. *)
Definition carried (gr : goroutine) : option string :=
  match gr with
  | Main (M_check (C_compare sha)) | Main (M_check (C_store sha)) => Some sha
  | _ => None
  end.

Definition trimmed (s : string) : Prop := GoStrings.TrimSpace s = s.

Definition hashes_trimmed (c : config) : Prop :=
  trimmed (lastSHA (mem c)) /\
  forall t gr sha,
    pool c !! t = Some gr -> carried gr = Some sha -> trimmed sha.

(** While the process is alive, goroutine 0 is inside [main]. *)
Definition main_runs (c : config) : Prop :=
  exited (mem c) = None -> exists p, pool c !! 0%nat = Some (Main p).

(** The process after the schedule [s]. *)
Definition reached (token deploy : string) (s : list (nat * reply)) : config :=
  fst (run s (start token deploy)).

(** The answers of [r] with another output of
    [git config --get remote.origin.url]. *)
Definition with_remote (out : string) (r : reply) : reply :=
  {| r_branch := r_branch r; r_remote := Some out;
     r_request := r_request r; r_do := r_do r; r_pgid := r_pgid r;
     r_pull := r_pull r; r_start := r_start r; r_exit := r_exit r |}.

(** The answers of a poll while the branch "50%" is checked out: git
    accepts the name, the URL of line 76 ends in "/commits/50%", and
    [http.NewRequest] rejects it for its escape "%". *)
Definition percent_branch : reply :=
  {| r_branch := Some "50%";
     r_remote := Some "git@github.com:fess932/gitwatcher.git";
     r_request := false; r_do := None; r_pgid := None; r_pull := false;
     r_start := None; r_exit := false |}.

(** The answers of [r] when [http.NewRequest] rejects the URL. *)
Definition with_bad_url (r : reply) : reply :=
  {| r_branch := r_branch r; r_remote := r_remote r;
     r_request := false; r_do := r_do r; r_pgid := r_pgid r;
     r_pull := r_pull r; r_start := r_start r; r_exit := r_exit r |}.

(** The first deploy: goroutine 0 parses the flags and polls "abc123",
    goroutine 1 runs lines 114 to 129. *)
Definition first_deploy : list (nat * reply) :=
  replicate 8 (0%nat, answer "abc123") ++
  replicate 5 (1%nat, answer "abc123").

(** [deployed] after the teardown by goroutine 2. *)
Definition redeploying : config :=
  Eval vm_compute in fst (teardown 2 no_answer deployed).

(** * Proofs *)

(** ** The string helpers on the outputs of git *)

Example TrimSpace_hash : GoStrings.TrimSpace " abc123
" = "abc123".
Proof. reflexivity. Qed.

Example TrimSpace_empty : GoStrings.TrimSpace "" = "".
Proof. reflexivity. Qed.

Example repo_of_ssh_remote :
  getRepoOwnerAndName (with_pgid None (answer "abc123"))
  = Some "fess932/gitwatcher".
Proof. reflexivity. Qed.

Example Replace1_https :
  GoStrings.Replace1
    (GoStrings.TrimSuffix "https://github.com/fess932/gitwatcher.git" ".git")
    "https://github.com/" ""
  = "fess932/gitwatcher".
Proof. reflexivity. Qed.

Example Replace1_first_only :
  GoStrings.Replace1 "a/b/a/b" "a/" "" = "b/a/b".
Proof. reflexivity. Qed.

(** ** Running one goroutine symbolically *)

Lemma at_pc_id g (l : list goroutine) t gr :
  l !! t = Some gr -> {| mem := g; pool := l |} = at_pc g l t gr.
Proof. intros H. unfold at_pc. by rewrite list_insert_id. Qed.

Lemma at_pc_lookup g (l : list goroutine) t gr :
  (t < length l)%nat -> pool (at_pc g l t gr) !! t = Some gr.
Proof. intros H. unfold at_pc; cbn. by apply list_lookup_insert_eq. Qed.

Lemma runDeploy_no_go r t p g n : runDeploy r t p g = Some n -> n_go n = false.
Proof.
  destruct p; cbn; intros H;
    repeat match type of H with
           | context [match ?x with _ => _ end] => destruct x
           | context [if ?x then _ else _] => destruct x
           end; try discriminate; by inversion H.
Qed.

Lemma step_deploy t r g l p n :
  (t < length l)%nat -> exited g = None -> runDeploy r t p g = Some n ->
  step t r (at_pc g l t (Deploy p)) =
    Some (at_pc (n_mem n) l t (resume Deploy (n_pc n)),
          map (pair t) (n_events n)).
Proof.
  intros Ht He Hn. unfold step, at_pc; cbn [mem pool].
  rewrite He, list_lookup_insert_eq by done. rewrite Hn.
  unfold commit; cbn [mem pool]. rewrite (runDeploy_no_go _ _ _ _ _ Hn).
  by rewrite list_insert_insert_eq.
Qed.

Lemma step_main t r g l p :
  (t < length l)%nat -> exited g = None ->
  step t r (at_pc g l t (Main p)) =
    let n := main r t p g in
    let l' := <[t := resume Main (n_pc n)]> l in
    Some ({| mem := n_mem n;
             pool := if n_go n then l' ++ [Deploy D_lock] else l' |},
          map (pair t) (n_events n)).
Proof.
  intros Ht He. unfold step, at_pc; cbn [mem pool].
  rewrite He, list_lookup_insert_eq by done.
  unfold commit; cbn [mem pool]. by rewrite list_insert_insert_eq.
Qed.

Lemma drive_deploy stop fuel t r g l p n :
  (t < length l)%nat -> exited g = None -> runDeploy r t p g = Some n ->
  drive stop (S fuel) t r (at_pc g l t (Deploy p)) =
    let gr := resume Deploy (n_pc n) in
    let c' := at_pc (n_mem n) l t gr in
    let evs := map (pair t) (n_events n) in
    if stop gr then (c', evs)
    else let '(c'', tr) := drive stop fuel t r c' in (c'', evs ++ tr).
Proof.
  intros Ht He Hn. cbn [drive]. rewrite (step_deploy _ _ _ _ _ _ Ht He Hn).
  by rewrite at_pc_lookup.
Qed.

Lemma drive_main stop fuel r g l p :
  (0 < length l)%nat -> exited g = None -> n_go (main r 0 p g) = false ->
  drive stop (S fuel) 0 r (at_pc g l 0 (Main p)) =
    let n := main r 0 p g in
    let gr := resume Main (n_pc n) in
    let c' := at_pc (n_mem n) l 0 gr in
    let evs := map (pair 0%nat) (n_events n) in
    if stop gr then (c', evs)
    else let '(c'', tr) := drive stop fuel 0 r c' in (c'', evs ++ tr).
Proof.
  intros Ht He Hn. cbn [drive]. rewrite (step_main _ _ _ _ _ Ht He).
  cbv zeta. rewrite Hn. cbn [pool].
  by rewrite list_lookup_insert_eq.
Qed.

(** The statement [go runDeploy()] adds the new goroutine at the end of the
    pool. *)
Lemma drive_main_go stop fuel r g l p :
  (0 < length l)%nat -> exited g = None -> n_go (main r 0 p g) = true ->
  drive stop (S fuel) 0 r (at_pc g l 0 (Main p)) =
    let n := main r 0 p g in
    let gr := resume Main (n_pc n) in
    let c' := at_pc (n_mem n) (l ++ [Deploy D_lock]) 0 gr in
    let evs := map (pair 0%nat) (n_events n) in
    if stop gr then (c', evs)
    else let '(c'', tr) := drive stop fuel 0 r c' in (c'', evs ++ tr).
Proof.
  intros Ht He Hn. cbn [drive]. rewrite (step_main _ _ _ _ _ Ht He).
  cbv zeta. rewrite Hn. cbn [pool]. unfold at_pc.
  rewrite insert_app_l by done.
  rewrite lookup_app_l by (by rewrite length_insert).
  by rewrite list_lookup_insert_eq.
Qed.

Local Arguments at_pc : simpl never.
Local Arguments drive : simpl never.
Local Arguments GoStrings.TrimSpace : simpl never.
Local Arguments GoStrings.TrimSuffix : simpl never.
Local Arguments GoStrings.Replace1 : simpl never.
Local Arguments String.append : simpl never.
Local Arguments String.eqb : simpl never.
Local Arguments Z.eqb : simpl never.
Local Arguments Z.mul : simpl never.

Lemma mem_at_pc g l t gr : mem (at_pc g l t gr) = g.
Proof. reflexivity. Qed.

Lemma select_starts g l t r ctx :
  (t < length l)%nat -> exited g = None ->
  deployCtx g = Some ctx -> Done g ctx = false ->
  step t r (at_pc g l t (Deploy D_select)) =
    Some (at_pc g l t (Deploy D_pull),
          [(t, EAccess F_deployCtx Read (holds g t));
           (t, ELog "Starting deploy...")]).
Proof.
  intros Ht He Hc Hd.
  rewrite (step_deploy t r g l D_select
             (goto g D_pull [EAccess F_deployCtx Read (holds g t);
                             ELog "Starting deploy..."]));
    [reflexivity | done | done |].
  cbn. by rewrite Hc, Hd.
Qed.

Lemma lookup_snoc {A} (l : list A) (x : A) : (l ++ [x]) !! length l = Some x.
Proof. by rewrite lookup_app_r, Nat.sub_diag. Qed.

Ltac use_hyps :=
  repeat match goal with
         | H : ?x = _ |- context [match ?x with _ => _ end] => rewrite H
         | H : ?x = _ |- context [if ?x then _ else _] => rewrite H
         | H : ?x = _ |- context [negb ?x] => rewrite H
         end.

Ltac side :=
  cbn; unfold Process_of, Done, holds, getCurrentBranch, getRepoOwnerAndName;
  cbn; rewrite ?Nat.eqb_refl, ?lookup_snoc;
  repeat (progress (use_hyps; cbn)); try reflexivity; try assumption.

Ltac shape :=
  cbn [resume n_pc goto ret panic at_select at_loop n_mem n_events n_go map].

Ltac in_pool := first [assumption | rewrite ?length_app; cbn; lia].

(** One statement of a deploy goroutine, of goroutine 0, or of goroutine 0
    at the [go] statement. *)
Ltac deploy_step :=
  erewrite drive_deploy; [ | in_pool | side | side; fail ]; shape.

Ltac main_step :=
  rewrite drive_main; [ | in_pool | side | side; fail ];
  cbv zeta; side; shape.

Ltac main_go_step :=
  rewrite drive_main_go; [ | in_pool | side | side; fail ];
  cbv zeta; side; shape.

(** ** Teardown of the previous deployment (lines 114 to 129) *)

Lemma fresh_context_live (l : list bool) :
  (l ++ [false]) !! length l = Some false.
Proof. by rewrite lookup_app_r, Nat.sub_diag. Qed.

Lemma fresh_context_live_after_cancel (l : list bool) c :
  (<[c := true]> l ++ [false]) !! length l = Some false.
Proof.
  replace (length l) with (length (<[c := true]> l)) by apply length_insert.
  apply fresh_context_live.
Qed.

(** C2. When [runDeploy] starts and the previous deployment has a process
    that the system still knows ([deployProcess] and its [Process] are not
    nil and [Getpgid] answers), the goroutine, before it creates the new
    context, sends SIGKILL once to the negated process-group id, that is to
    the whole group, then waits for the process, then sleeps two seconds;
    only then comes [context.WithCancel], and the new context is live. *)
Theorem teardown_kills_group_waits_pauses
  (c : config) (t : nat) (r : reply) (p : nat) (pid pgid : Z) :
  exited (mem c) = None ->
  pool c !! t = Some (Deploy D_lock) ->
  mu (mem c) = None ->
  deployProcess (mem c) = Some p ->
  Process_of (mem c) p = Some pid ->
  r_pgid r = Some pgid ->
  exists c' tr,
    teardown t r c = (c', tr) /\
    pool c' !! t = Some (Deploy D_select) /\
    filter is_effect (events tr) =
      [EGetpgid pid; EKill (- pgid) SIGKILL; EWait p; ESleep (2 * Second);
       EWithCancel (length (contexts (mem c)))] /\
    deployCtx (mem c') = Some (length (contexts (mem c))) /\
    Done (mem c') (length (contexts (mem c))) = false.
Proof.
  destruct c as [g l]; cbn [mem pool]. intros He Hl Hm Hp Hq Hr.
  pose proof (lookup_lt_Some _ _ _ Hl) as Hlen.
  rewrite (at_pc_id g l t _ Hl). unfold teardown, Process_of in *.
  destruct (deployCancel g) as [c0|] eqn:Hc; repeat deploy_step;
    do 2 eexists; (split; [reflexivity|]);
    (split; [by apply at_pc_lookup|]); unfold at_pc; cbn;
    rewrite ?length_insert; (split; [reflexivity|]); (split; [reflexivity|]);
    unfold Done; cbn.
  - by rewrite fresh_context_live_after_cancel.
  - by rewrite fresh_context_live.
Qed.

Lemma teardown_kills_group_waits_pauses_witness :
  exists c' tr,
    teardown 2 (with_pgid (Some 4242) no_answer) deployed = (c', tr) /\
    pool c' !! 2%nat = Some (Deploy D_select) /\
    filter is_effect (events tr) =
      [EGetpgid 4242; EKill (- 4242) SIGKILL; EWait 0; ESleep (2 * Second);
       EWithCancel 1] /\
    deployCtx (mem c') = Some 1%nat /\
    Done (mem c') 1 = false.
Proof.
  apply (teardown_kills_group_waits_pauses deployed 2
           (with_pgid (Some 4242) no_answer) 0 4242 4242); reflexivity.
Defined.

Lemma insert_snoc {A} (l : list A) (x y : A) :
  <[length l := y]> (l ++ [x]) = l ++ [y].
Proof. induction l as [|a l IH]; cbn; [done|]. by f_equal. Qed.

(** A turn of the retry loop under a live context, with the mutex free:
    when the pull succeeds the command is made under that context, tracked
    and started; when it fails nothing changes but the time. *)
Lemma attempt_outcome (c : config) (t ctx : nat) (r : reply) :
  exited (mem c) = None ->
  pool c !! t = Some (Deploy D_select) ->
  mu (mem c) = None ->
  deployCtx (mem c) = Some ctx ->
  Done (mem c) ctx = false ->
  exists c' tr,
    attempt t r c = (c', tr) /\
    filter is_kill (events tr) = [] /\
    filter is_panic (events tr) = [] /\
    exited (mem c') = None /\
    if r_pull r
    then phases tr = launched_turn r /\
         pool c' !! t = Some (after_launch r) /\
         cmds (mem c') =
           cmds (mem c) ++ [{| cmd_ctx := ctx; cmd_line := deployCmd (mem c);
                               Setpgid := true; Process := r_start r |}] /\
         deployProcess (mem c') = Some (length (cmds (mem c)))
    else c' = c /\ phases tr = [Pull; Backoff retryDelay].
Proof.
  destruct c as [g l]; cbn [mem pool]. intros He Hl Hm Hc Hd.
  pose proof (lookup_lt_Some _ _ _ Hl) as Hlen.
  rewrite (at_pc_id g l t _ Hl).
  unfold attempt, launched_turn, after_launch, Done in *.
  destruct (r_pull r) eqn:Hpull;
    [destruct (r_start r) as [pid|] eqn:Hstart;
     [destruct (r_exit r) eqn:Hx|]|];
    repeat deploy_step;
    do 2 eexists; (split; [reflexivity|]);
    (split; [reflexivity|]); (split; [reflexivity|]);
    rewrite ?mem_at_pc; (split; [assumption|]);
    try (split; reflexivity);
    (split; [reflexivity|]); (split; [by apply at_pc_lookup|]);
    cbn; rewrite ?insert_snoc; by repeat split.
Qed.

(** What the first part of [runDeploy] does when no process is there to
    kill. *)
Lemma teardown_silent (c : config) (t : nat) (r : reply) :
  exited (mem c) = None ->
  pool c !! t = Some (Deploy D_lock) ->
  mu (mem c) = None ->
  (deployProcess (mem c) = None \/
   (exists p, deployProcess (mem c) = Some p /\ Process_of (mem c) p = None) \/
   (exists p pid, deployProcess (mem c) = Some p /\
                  Process_of (mem c) p = Some pid /\ r_pgid r = None)) ->
  exists c' tr,
    teardown t r c = (c', tr) /\
    filter is_kill (events tr) = [] /\
    filter is_panic (events tr) = [] /\
    exited (mem c') = None /\
    mu (mem c') = None /\
    (exists ctx, deployCtx (mem c') = Some ctx /\ Done (mem c') ctx = false) /\
    pool c' !! t = Some (Deploy D_select) /\
    cmds (mem c') = cmds (mem c) /\
    deployCmd (mem c') = deployCmd (mem c) /\
    deployProcess (mem c') = deployProcess (mem c) /\
    forall r', exists c'',
      step t r' c' =
        Some (c'', [(t, EAccess F_deployCtx Read false);
                    (t, ELog "Starting deploy...")]) /\
      pool c'' !! t = Some (Deploy D_pull).
Proof.
  destruct c as [g l]; cbn [mem pool]. intros He Hl Hm Hcase.
  pose proof (lookup_lt_Some _ _ _ Hl) as Hlen.
  rewrite (at_pc_id g l t _ Hl). unfold teardown, Process_of in *.
  assert (Hlive : forall (k : list bool) (g' : globals),
            contexts g' = k ++ [false] -> Done g' (length k) = false)
    by (intros k g' Hk; unfold Done; by rewrite Hk, fresh_context_live).
  destruct Hcase as [Hp | [(p & Hp & Hq) | (p & pid & Hp & Hq & Hr)]];
    destruct (deployCancel g) as [c0|] eqn:Hc; repeat deploy_step;
    do 2 eexists; (split; [reflexivity|]);
    (split; [reflexivity|]); (split; [reflexivity|]);
    rewrite !mem_at_pc;
    (split; [assumption|]); (split; [reflexivity|]);
    (split; [eexists; split; [reflexivity|]; by apply Hlive |]);
    (split; [by apply at_pc_lookup|]);
    (split; [reflexivity|]); (split; [reflexivity|]);
    (split; [reflexivity|]);
    intros r'; eexists;
    (split; [ erewrite select_starts;
              [reflexivity | assumption | assumption | reflexivity
              | by apply Hlive]
            | by apply at_pc_lookup ]).
Qed.

(** C8. When no deployment process is active ([deployProcess] is nil, or
    its [Process] is nil, or [Getpgid] fails because the process is gone),
    teardown sends no signal and raises nothing: the goroutine gets to the
    head of its loop with the mutex released, a live new context, and the
    commands, the deploy flag and [deployProcess] as they were.  The launch
    then goes as after any teardown: the next statement starts the deploy,
    and the turn of the loop runs [git pull]; when the pull succeeds it
    makes the command of the deploy flag under the new context, in a
    process group of its own, tracks it in [deployProcess] and starts it,
    backing off only when the start or the exit fails; when the pull fails
    it backs off with nothing changed.  Nothing is killed and nothing
    panics in that turn either. *)
Theorem teardown_without_process_is_silent (c : config) (t : nat) (r : reply) :
  exited (mem c) = None ->
  pool c !! t = Some (Deploy D_lock) ->
  mu (mem c) = None ->
  (deployProcess (mem c) = None \/
   (exists p, deployProcess (mem c) = Some p /\ Process_of (mem c) p = None) \/
   (exists p pid, deployProcess (mem c) = Some p /\
                  Process_of (mem c) p = Some pid /\ r_pgid r = None)) ->
  exists c' tr ctx,
    teardown t r c = (c', tr) /\
    filter is_kill (events tr) = [] /\
    filter is_panic (events tr) = [] /\
    exited (mem c') = None /\
    mu (mem c') = None /\
    deployCtx (mem c') = Some ctx /\
    Done (mem c') ctx = false /\
    pool c' !! t = Some (Deploy D_select) /\
    deployProcess (mem c') = deployProcess (mem c) /\
    (forall r', exists c'',
       step t r' c' =
         Some (c'', [(t, EAccess F_deployCtx Read false);
                     (t, ELog "Starting deploy...")]) /\
       pool c'' !! t = Some (Deploy D_pull)) /\
    forall r', exists c'' tr',
      attempt t r' c' = (c'', tr') /\
      filter is_kill (events tr') = [] /\
      filter is_panic (events tr') = [] /\
      exited (mem c'') = None /\
      if r_pull r'
      then phases tr' = launched_turn r' /\
           pool c'' !! t = Some (after_launch r') /\
           cmds (mem c'') =
             cmds (mem c) ++ [{| cmd_ctx := ctx;
                                 cmd_line := deployCmd (mem c);
                                 Setpgid := true; Process := r_start r' |}] /\
           deployProcess (mem c'') = Some (length (cmds (mem c)))
      else c'' = c' /\ phases tr' = [Pull; Backoff retryDelay].
Proof.
  intros He Hl Hm Hcase.
  destruct (teardown_silent c t r He Hl Hm Hcase)
    as (c' & tr & Ht & Hk & Hp & He' & Hm' & (ctx & Hc & Hd) & Hl' &
        Hcmds & Hflag & Hproc & Hstep).
  exists c', tr, ctx. do 10 (split; [assumption|]).
  intros r'.
  destruct (attempt_outcome c' t ctx r' He' Hl' Hm' Hc Hd)
    as (c'' & tr' & Ha & Hk' & Hp' & He'' & Hout).
  exists c'', tr'. do 4 (split; [assumption|]).
  by rewrite <- Hcmds, <- Hflag.
Qed.

Lemma teardown_without_process_is_silent_witness :
  exists c' tr ctx,
    teardown 2 no_answer deployed = (c', tr) /\
    filter is_kill (events tr) = [] /\
    filter is_panic (events tr) = [] /\
    deployCtx (mem c') = Some ctx /\
    Done (mem c') ctx = false /\
    exists c'' tr',
      attempt 2 (answer "def456") c' = (c'', tr') /\
      exited (mem c'') = None /\
      phases tr' = [Pull; Launch; Exit false; Backoff retryDelay] /\
      cmds (mem c'') =
        cmds (mem deployed) ++
          [{| cmd_ctx := ctx; cmd_line := "make run"; Setpgid := true;
              Process := r_start (answer "def456") |}] /\
      deployProcess (mem c'') = Some 1%nat.
Proof.
  destruct (teardown_without_process_is_silent deployed 2 no_answer
              eq_refl eq_refl eq_refl)
    as (c' & tr & ctx & Ht & Hk & Hp & _ & _ & Hc & Hd & _ & _ & _ & Hnext).
  { right; right. exists 0%nat, 4242. repeat split; reflexivity. }
  destruct (Hnext (answer "def456")) as (c'' & tr' & Ha & _ & _ & He & Hout).
  destruct Hout as (Hph & _ & Hcmds & Hdp).
  exists c', tr, ctx. do 5 (split; [assumption|]).
  exists c'', tr'. do 2 (split; [assumption|]).
  split; [exact Hph|]. split; [exact Hcmds|exact Hdp].
Defined.

(** ** The poll ([check], lines 63 to 111) *)

(** A poll that fetches [sha]: equal to [lastSHA], nothing changes;
    different, it is stored and [runDeploy] is started. *)
Lemma poll_fetches (c : config) (r : reply) (sha : string) :
  exited (mem c) = None ->
  pool c !! 0%nat = Some (Main (M_check C_branch)) ->
  fetches r sha ->
  exists c' tr,
    poll r c = (c', tr) /\
    (lastSHA (mem c') <> lastSHA (mem c) <-> sha <> lastSHA (mem c)) /\
    (sha = lastSHA (mem c) ->
       c' = c /\ count is_store tr = 0%nat /\ count is_go tr = 0%nat) /\
    (sha <> lastSHA (mem c) ->
       mem c' = set_lastSHA sha (mem c) /\
       pool c' = pool c ++ [Deploy D_lock] /\
       count is_store tr = 1%nat /\ count is_go tr = 1%nat).
Proof.
  destruct c as [g l]; cbn [mem pool].
  intros He Hl ([b Hb] & [u Hu] & Hq & resp & SHA & Hd & Hs & Hj & ->).
  pose proof (lookup_lt_Some _ _ _ Hl) as Hlen.
  rewrite (at_pc_id g l 0 _ Hl). unfold poll.
  unfold getCurrentBranch, getRepoOwnerAndName.
  assert (Hst : (StatusCode resp =? StatusOK) = true) by by apply Z.eqb_eq.
  do 4 main_step.
  destruct (String.eqb (GoStrings.TrimSpace SHA) (lastSHA g)) eqn:Heq.
  - apply String.eqb_eq in Heq as E. do 2 main_step.
    do 2 eexists; split; [reflexivity|]. rewrite mem_at_pc.
    split; [tauto|]. split; [|tauto]. by intros _.
  - apply String.eqb_neq in Heq as E. do 2 main_step. main_go_step. main_step.
    do 2 eexists; split; [reflexivity|]. rewrite mem_at_pc. cbn [lastSHA set_lastSHA].
    split; [tauto|]. split; [tauto|]. intros _.
    split; [reflexivity|]. split; [|by split].
    unfold at_pc; cbn [pool]. rewrite insert_app_l by done.
    by rewrite list_insert_id.
Qed.

(** C3. A poll that fetches a hash stores it if and only if it differs from
    [lastSHA].  With an equal hash the poll changes nothing: the memory and
    the pool are as before, no store and no [go] statement occur.  With a
    different hash, [lastSHA] is written once, to that hash, nothing else
    in memory changes, and one goroutine running [runDeploy] is added. *)
Theorem check_updates_lastSHA_iff_changed
  (c : config) (r : reply) (sha : string) :
  exited (mem c) = None ->
  pool c !! 0%nat = Some (Main (M_check C_branch)) ->
  fetches r sha ->
  exists c' tr,
    poll r c = (c', tr) /\
    (lastSHA (mem c') <> lastSHA (mem c) <-> sha <> lastSHA (mem c)) /\
    (sha = lastSHA (mem c) ->
       c' = c /\ count is_store tr = 0%nat /\ count is_go tr = 0%nat) /\
    (sha <> lastSHA (mem c) ->
       mem c' = set_lastSHA sha (mem c) /\
       pool c' = pool c ++ [Deploy D_lock] /\
       count is_store tr = 1%nat /\ count is_go tr = 1%nat).
Proof. exact (poll_fetches c r sha). Qed.

Lemma answer_fetches (SHA : string) :
  fetches (answer SHA) (GoStrings.TrimSpace SHA).
Proof.
  unfold fetches; cbn. repeat split; eauto.
  exists {| StatusCode := 200; Decode := Some SHA |}, SHA. by repeat split.
Qed.

Lemma check_updates_lastSHA_iff_changed_witness :
  exists c' tr,
    poll (answer " abc123 ") polling = (c', tr) /\
    lastSHA (mem c') = "abc123" /\ pool c' = pool polling ++ [Deploy D_lock].
Proof.
  destruct (check_updates_lastSHA_iff_changed polling (answer " abc123 ")
              "abc123" eq_refl eq_refl (answer_fetches " abc123 "))
    as (c' & tr & Hp & _ & _ & Hne).
  destruct Hne as (Hm & Hl & _); [discriminate|].
  exists c', tr. split; [exact Hp|]. split; [by rewrite Hm | exact Hl].
Defined.

(** A poll that fails at one of the five stages that [check] reports (the
    branch, the remote URL, the sending of the request, a status other than
    200, the decoding) is skipped: the whole configuration is as before the
    poll, so [lastSHA] is not written, no goroutine is started, the process
    has not exited, and goroutine 0 is back at the head of its loop after
    its five-second sleep.  The failure that [check] does not report, the
    one of [http.NewRequest], is not among them. *)
Theorem failed_poll_is_skipped (c : config) (r : reply) :
  exited (mem c) = None ->
  pool c !! 0%nat = Some (Main (M_check C_branch)) ->
  skipped r ->
  exists tr,
    poll r c = (c, tr) /\
    count is_store tr = 0%nat /\
    count is_go tr = 0%nat /\
    count is_panic tr = 0%nat /\
    last (events tr) = Some (ESleep (5 * Second)).
Proof.
  destruct c as [g l]; cbn [mem pool]. intros He Hl Hskip.
  pose proof (lookup_lt_Some _ _ _ Hl) as Hlen.
  rewrite (at_pc_id g l 0 _ Hl). unfold poll.
  destruct Hskip as [Hb | [b Hb] Hu | [b Hb] [u Hu] Hq Hd
                    | resp [b Hb] [u Hu] Hq Hd Hs
                    | resp [b Hb] [u Hu] Hq Hd Hs Hj];
    try (assert (Hst : (StatusCode resp =? StatusOK) = false)
           by by apply Z.eqb_neq);
    try (assert (Hst : (StatusCode resp =? StatusOK) = true)
           by by apply Z.eqb_eq);
    repeat main_step; eexists; (split; [reflexivity|]); by repeat split.
Qed.

Lemma failed_poll_is_skipped_witness :
  exists tr,
    poll no_answer polling = (polling, tr) /\
    count is_store tr = 0%nat /\
    count is_go tr = 0%nat /\
    count is_panic tr = 0%nat /\
    last (events tr) = Some (ESleep (5 * Second)).
Proof.
  apply (failed_poll_is_skipped polling no_answer);
    [reflexivity | reflexivity | by apply skip_branch].
Defined.

(** C4. A poll that fails when the request is made is not skipped: line 77
    drops the error of [http.NewRequest], unlike lines 65, 71, 83 and 97,
    which report theirs and return.  With the branch "50%" checked out the
    request is nil, line 78 dereferences it, and the process exits with
    status 2 after the two git commands: goroutine 0 has not returned to
    its loop, and no goroutine runs any more. *)
Theorem percent_branch_crashes_poll :
  poll percent_branch polling =
    ({| mem := set_exited (Some 2) (mem polling); pool := [Returned] |},
     [(0%nat, EExec ["git"; "rev-parse"; "--abbrev-ref"; "HEAD"]);
      (0%nat, EExec ["git"; "config"; "--get"; "remote.origin.url"]);
      (0%nat, EPanic)]) /\
  count is_panic (snd (poll percent_branch polling)) = 1%nat /\
  fst (poll percent_branch polling) <> polling /\
  forall (t : nat) (r : reply),
    step t r (fst (poll percent_branch polling)) = None.
Proof.
  assert (Hp : poll percent_branch polling =
            ({| mem := set_exited (Some 2) (mem polling);
                pool := [Returned] |},
             [(0%nat, EExec ["git"; "rev-parse"; "--abbrev-ref"; "HEAD"]);
              (0%nat, EExec ["git"; "config"; "--get"; "remote.origin.url"]);
              (0%nat, EPanic)]))
    by (vm_compute; reflexivity).
  split; [exact Hp|]. rewrite Hp. cbn [fst snd].
  split; [reflexivity|]. split; [discriminate|].
  intros t r. reflexivity.
Qed.

(** C10. A response with status 200 whose body decodes without a "sha"
    value ([data.SHA] is the empty string) is not skipped: when [lastSHA]
    is not empty, the empty string is a new hash, it is stored in
    [lastSHA], and one goroutine running [runDeploy] is started. *)
Theorem empty_sha_counts_as_change (c : config) (r : reply) (resp : Response) :
  exited (mem c) = None ->
  pool c !! 0%nat = Some (Main (M_check C_branch)) ->
  is_Some (r_branch r) ->
  is_Some (r_remote r) ->
  r_request r = true ->
  r_do r = Some resp ->
  StatusCode resp = StatusOK ->
  Decode resp = Some "" ->
  lastSHA (mem c) <> "" ->
  exists c' tr,
    poll r c = (c', tr) /\
    lastSHA (mem c') = "" /\
    mem c' = set_lastSHA "" (mem c) /\
    pool c' = pool c ++ [Deploy D_lock] /\
    count is_store tr = 1%nat /\
    count is_go tr = 1%nat.
Proof.
  intros He Hl Hb Hu Hq Hd Hs Hj Hne.
  assert (Hf : fetches r "").
  { repeat split; try done. by exists resp, "". }
  destruct (poll_fetches c r "" He Hl Hf) as (c' & tr & Hp & _ & _ & Hch).
  destruct Hch as (Hm & Hpool & Hst & Hgo); [congruence|].
  exists c', tr. rewrite Hm. by repeat split.
Qed.

Lemma empty_sha_counts_as_change_witness :
  exists c' tr,
    poll (answer "") (fst (poll (answer "abc123") polling)) = (c', tr) /\
    lastSHA (mem c') = "" /\
    pool c' = [Main (M_check C_branch); Deploy D_lock; Deploy D_lock].
Proof.
  destruct (empty_sha_counts_as_change
              (fst (poll (answer "abc123") polling)) (answer "")
              {| StatusCode := 200; Decode := Some "" |})
    as (c' & tr & Hp & Hs & _ & Hl & _).
  - reflexivity.
  - reflexivity.
  - by eexists.
  - by eexists.
  - reflexivity.
  - reflexivity.
  - reflexivity.
  - reflexivity.
  - vm_compute. discriminate.
  - exists c', tr. split; [exact Hp|]. split; [exact Hs | exact Hl].
Defined.

(** ** Startup ([main], lines 31 to 36) *)

Lemma run_exited (s : list (nat * reply)) (c : config) (k : Z) :
  exited (mem c) = Some k -> run s c = (c, []).
Proof.
  intros He. induction s as [|[t r] s IH]; [done|].
  cbn. unfold step. by rewrite He.
Qed.

(** C9. When [-token] or [-deploy] is empty, the first statement of the
    process is [log.Fatal]: it prints the message and exits with status 1,
    and whatever the schedule, the process does nothing but that; no poll
    is made.  When both are present, the process goes to the head of the
    polling loop, line 64 of [check]. *)
Theorem main_requires_flags (token deploy : string) :
  (token = "" \/ deploy = "" ->
   (forall r, exists c',
      step 0 r (start token deploy) = Some (c', [(0%nat, fatal)]) /\
      exited (mem c') = Some 1) /\
   (forall s, let tr := snd (run s (start token deploy)) in
              tr = [] \/ tr = [(0%nat, fatal)])) /\
  (token <> "" -> deploy <> "" ->
   forall r,
     step 0 r (start token deploy) =
       Some ({| mem := mem (start token deploy);
                pool := [Main (M_check C_branch)] |}, [])).
Proof.
  assert (Hfatal : token = "" \/ deploy = "" ->
            forall r, step 0 r (start token deploy) =
              Some ({| mem := set_exited (Some 1) (mem (start token deploy));
                       pool := [Returned] |}, [(0%nat, fatal)])).
  { intros Hm r. unfold step; cbn.
    assert ((token =? "")%string || (deploy =? "")%string = true) as ->;
      [|done].
    apply orb_true_iff. by destruct Hm as [->| ->]; [left|right]. }
  split.
  - intros Hm. split.
    + intros r. eexists. split; [by apply Hfatal|done].
    + intros s. induction s as [|[t r] s IH]; [by left|].
      cbn [run]. destruct t as [|t].
      * rewrite (Hfatal Hm r). erewrite run_exited by done. by right.
      * assert (step (S t) r (start token deploy) = None) as -> by done.
        exact IH.
  - intros Ht Hd r. unfold step; cbn.
    apply String.eqb_neq in Ht, Hd. by rewrite Ht, Hd.
Qed.

Lemma main_requires_flags_witness :
  (exists c',
     step 0 no_answer (start "" "make run") = Some (c', [(0%nat, fatal)]) /\
     exited (mem c') = Some 1) /\
  step 0 no_answer (start "tok" "make run") = Some (polling, []).
Proof.
  destruct (main_requires_flags "" "make run") as [Hmissing _].
  destruct (main_requires_flags "tok" "make run") as [_ Hpresent].
  split.
  - apply Hmissing. by left.
  - apply Hpresent; discriminate.
Defined.

(** ** Sequences of polls *)

Lemma poll_keeps_polling (c : config) (r : reply) (sha : string) :
  exited (mem c) = None ->
  pool c !! 0%nat = Some (Main (M_check C_branch)) ->
  fetches r sha ->
  exited (mem (fst (poll r c))) = None /\
  pool (fst (poll r c)) !! 0%nat = Some (Main (M_check C_branch)) /\
  lastSHA (mem (fst (poll r c))) = sha.
Proof.
  intros He Hl Hf.
  destruct (poll_fetches c r sha He Hl Hf) as (c' & tr & -> & _ & Heq & Hne).
  cbn [fst]. destruct (decide (sha = lastSHA (mem c))) as [E|E].
  - by destruct (Heq E) as (-> & _).
  - destruct (Hne E) as (Hm & Hp & _). rewrite Hm, Hp. cbn.
    split; [done|]. split; [|done].
    rewrite lookup_app_l; [done|by eapply lookup_lt_Some].
Qed.

(** Whatever goroutine runs, [lastSHA] changes at line 107 only: the
    goroutines of [runDeploy] never write it. *)
Lemma step_lastSHA t r c c' evs :
  step t r c = Some (c', evs) ->
  lastSHA (mem c') = lastSHA (mem c) \/
  exists sha,
    pool c !! t = Some (Main (M_check (C_store sha))) /\
    lastSHA (mem c') = sha.
Proof.
  unfold step. destruct (exited (mem c)); [done|].
  destruct (pool c !! t) as [[p|p|]|] eqn:Hl; try done.
  - intros H; inversion H; subst; clear H. cbn [mem commit fst].
    destruct p as [|q|]; cbn.
    + destruct (_ || _); by left.
    + destruct q; cbn; unfold getCurrentBranch, getRepoOwnerAndName;
        repeat match goal with
               | |- context [match ?x with _ => _ end] => destruct x eqn:?
               | |- context [if ?x then _ else _] => destruct x eqn:?
               end; cbn; try (by left).
      right. by eexists.
    + by left.
  - destruct (runDeploy r t p (mem c)) as [n|] eqn:Hn; [|done].
    intros H; inversion H; subst; clear H. left. cbn [mem].
    destruct p; cbn in Hn;
      repeat match type of Hn with
             | context [match ?x with _ => _ end] => destruct x eqn:?
             | context [if ?x then _ else _] => destruct x eqn:?
             end; try discriminate; by inversion Hn.
Qed.

(** C7, as the program has it.  After any sequence of polls that each
    fetch a hash, [lastSHA] is the hash of the last one, and the value it
    had at first when there is none: every fetched hash that differs from
    the stored one replaces it, also when it was stored before. *)
Theorem lastSHA_is_last_fetched
  (rs : list reply) (hs : list string) (c : config) :
  exited (mem c) = None ->
  pool c !! 0%nat = Some (Main (M_check C_branch)) ->
  Forall2 fetches rs hs ->
  lastSHA (mem (polls rs c)) = default (lastSHA (mem c)) (last hs).
Proof.
  intros He Hl Hf. revert c He Hl.
  induction Hf as [|r h rs hs Hr Hf IH]; intros c He Hl; [done|].
  destruct (poll_keeps_polling c r h He Hl Hr) as (He' & Hl' & Hs).
  cbn [polls]. rewrite (IH _ He' Hl'), Hs, last_cons.
  by destruct (last hs).
Qed.

Lemma lastSHA_is_last_fetched_witness :
  lastSHA (mem (polls [answer "abc123"; answer "def456"] polling)) = "def456".
Proof.
  apply (lastSHA_is_last_fetched [answer "abc123"; answer "def456"]
           ["abc123"; "def456"] polling eq_refl eq_refl).
  repeat constructor; apply (answer_fetches).
Defined.

(** C7, as stated, fails: the remote reports "abc123", then "def456", then
    "abc123" again, and [lastSHA], which had moved past "abc123", holds it
    again. *)
Lemma lastSHA_reverts :
  ~ (forall rs1 rs2 rs3 : list reply,
       lastSHA (mem (polls (rs1 ++ rs2) polling))
         <> lastSHA (mem (polls rs1 polling)) ->
       lastSHA (mem (polls (rs1 ++ rs2 ++ rs3) polling))
         <> lastSHA (mem (polls rs1 polling))).
Proof.
  intros H.
  apply (H [answer "abc123"] [answer "def456"] [answer "abc123"]).
  - vm_compute. discriminate.
  - vm_compute. reflexivity.
Qed.

(** ** The retry loop of [runDeploy] (lines 131 to 163) *)

(** C1, as the program has it.  A goroutine at one of the two sleeps of the
    retry loop sleeps [retryDelay], ten seconds, in full, whatever has been
    cancelled, and goes to the head of the loop.  Cancellation is seen
    there: when the context that [deployCtx] holds at that moment is
    cancelled, the goroutine logs "Deploy cancelled" and returns, without
    a pull and without a launch. *)
Theorem backoff_sleeps_in_full
  (c : config) (t : nat) (p : deploy_pc) (r : reply) :
  exited (mem c) = None ->
  pool c !! t = Some (Deploy p) ->
  backoff p = true ->
  step t r c =
    Some (at_pc (mem c) (pool c) t (Deploy D_select),
          [(t, ESleep retryDelay)]) /\
  retryDelay = 10 * Second /\
  forall (g : globals) (ctx : nat) (r' : reply),
    exited g = None -> deployCtx g = Some ctx -> Done g ctx = true ->
    step t r' (at_pc g (pool c) t (Deploy D_select)) =
      Some (at_pc g (pool c) t Returned,
            [(t, EAccess F_deployCtx Read (holds g t));
             (t, ELog "Deploy cancelled")]).
Proof.
  destruct c as [g l]; cbn [mem pool]. intros He Hl Hb.
  pose proof (lookup_lt_Some _ _ _ Hl) as Hlen.
  split; [|split; [reflexivity|]].
  - rewrite (at_pc_id g l t _ Hl).
    destruct p; try discriminate;
      by rewrite (step_deploy t r g l _ (goto g D_select [ESleep retryDelay])).
  - intros g' ctx r' He' Hc Hd.
    rewrite (step_deploy t r' g' l D_select
               (ret g' [EAccess F_deployCtx Read (holds g' t);
                        ELog "Deploy cancelled"])); [done..|].
    cbn. by rewrite Hc, Hd.
Qed.

Lemma superseded_run :
  run superseded_in_backoff (start "tok" "make run")
  = (superseded, superseded_trace).
Proof. vm_compute. reflexivity. Qed.

Lemma backoff_sleeps_in_full_witness :
  step 1 no_answer superseded =
    Some (at_pc (mem superseded) (pool superseded) 1 (Deploy D_select),
          [(1%nat, ESleep retryDelay)]).
Proof.
  apply (backoff_sleeps_in_full superseded 1 D_run_backoff no_answer);
    reflexivity.
Defined.

(** C1, as stated, fails.  In the run [superseded_in_backoff] goroutine 1
    sleeps in backoff and its context, the one it created, has just been
    cancelled; its next statement is not the return of line 135 but the
    end of the whole sleep.  In the run that follows it even pulls again,
    under the context of its successor. *)
Lemma backoff_is_not_interrupted :
  ~ (forall (s : list (nat * reply)) (c : config) (tr : list (nat * event))
            (t ctx : nat) (p : deploy_pc) (r : reply),
       run s (start "tok" "make run") = (c, tr) ->
       In (t, EWithCancel ctx) tr ->
       Done (mem c) ctx = true ->
       pool c !! t = Some (Deploy p) ->
       backoff p = true ->
       exists c',
         step t r c = Some (c', [(t, ELog "Deploy cancelled")]) /\
         pool c' !! t = Some Returned) /\
  In (1%nat, EPull 1) (snd (run then_wakes_up superseded)).
Proof.
  split.
  - intros H.
    destruct (H superseded_in_backoff superseded superseded_trace
                1%nat 0%nat D_run_backoff no_answer superseded_run)
      as (c' & Hs & _).
    + vm_compute. tauto.
    + reflexivity.
    + reflexivity.
    + reflexivity.
    + vm_compute in Hs. discriminate.
  - vm_compute. tauto.
Qed.

(** One turn of the loop whose command does not exit with status 0: the
    goroutine is back at the [select], under the same live context. *)
Lemma attempt_fails (c : config) (t ctx : nat) (r : reply) :
  exited (mem c) = None ->
  pool c !! t = Some (Deploy D_select) ->
  mu (mem c) = None ->
  deployCtx (mem c) = Some ctx ->
  Done (mem c) ctx = false ->
  r_exit r = false ->
  exists c' tr,
    attempt t r c = (c', tr) /\
    pool c' !! t = Some (Deploy D_select) /\
    exited (mem c') = None /\
    mu (mem c') = None /\
    deployCtx (mem c') = Some ctx /\
    contexts (mem c') = contexts (mem c) /\
    phases tr = failing_turn r.
Proof.
  destruct c as [g l]; cbn [mem pool]. intros He Hl Hm Hc Hd Hx.
  pose proof (lookup_lt_Some _ _ _ Hl) as Hlen.
  rewrite (at_pc_id g l t _ Hl). unfold attempt, failing_turn, Done in *.
  destruct (r_pull r) eqn:Hpull; [destruct (r_start r) as [pid|] eqn:Hstart|];
    repeat deploy_step;
    do 2 eexists; (split; [reflexivity|]);
    (split; [by apply at_pc_lookup|]); rewrite !mem_at_pc; by repeat split.
Qed.

Lemma phases_app (tr1 tr2 : list (nat * event)) :
  phases (tr1 ++ tr2) = phases tr1 ++ phases tr2.
Proof. unfold phases, events. by rewrite map_app, omap_app. Qed.

(** C5. While its context is not cancelled, a goroutine of [runDeploy]
    whose deploy command never exits with status 0 goes round the loop as
    many times as one wants: after any number of turns it stands at the
    [select] again, not returned.  Each turn starts with the pull, launches
    the command only after a pull that succeeded in that same turn, and ends
    with one sleep of [retryDelay], ten seconds.  Nothing counts the
    turns. *)
Theorem failing_deploy_retries_forever
  (rs : list reply) (c : config) (t ctx : nat) :
  exited (mem c) = None ->
  pool c !! t = Some (Deploy D_select) ->
  mu (mem c) = None ->
  deployCtx (mem c) = Some ctx ->
  Done (mem c) ctx = false ->
  Forall (fun r => r_exit r = false) rs ->
  exists c' tr,
    attempts t rs c = (c', tr) /\
    pool c' !! t = Some (Deploy D_select) /\
    exited (mem c') = None /\
    phases tr = concat (map failing_turn rs) /\
    retryDelay = 10 * Second.
Proof.
  intros He Hl Hm Hc Hd Hrs. revert c He Hl Hm Hc Hd.
  induction Hrs as [|r rs Hr Hrs IH]; intros c He Hl Hm Hc Hd.
  - exists c, []. by repeat split.
  - destruct (attempt_fails c t ctx r He Hl Hm Hc Hd Hr)
      as (c1 & tr1 & Ha & Hl1 & He1 & Hm1 & Hc1 & Hk1 & Hp1).
    assert (Hd1 : Done (mem c1) ctx = false)
      by (unfold Done in *; by rewrite Hk1).
    destruct (IH c1 He1 Hl1 Hm1 Hc1 Hd1) as (c2 & tr2 & Hb & Hl2 & He2 & Hp2 & _).
    exists c2, (tr1 ++ tr2). cbn [attempts]. rewrite Ha, Hb.
    split; [done|]. split; [done|]. split; [done|]. split; [|done].
    by rewrite phases_app, Hp1, Hp2.
Qed.

Lemma failing_deploy_retries_forever_witness :
  exists c' tr,
    attempts 2 (replicate 3 (answer "def456"))
      (fst (teardown 2 no_answer deployed)) = (c', tr) /\
    pool c' !! 2%nat = Some (Deploy D_select) /\
    exited (mem c') = None /\
    phases tr = concat (replicate 3 [Pull; Launch; Exit false;
                                     Backoff retryDelay]) /\
    retryDelay = 10 * Second.
Proof.
  apply (failing_deploy_retries_forever (replicate 3 (answer "def456"))
           (fst (teardown 2 no_answer deployed)) 2 1);
    try reflexivity.
  by repeat constructor.
Defined.

(** ** The locking discipline *)

Lemma holds_true g t : mu g = Some t -> holds g t = true.
Proof. intros H. unfold holds. by rewrite H, Nat.eqb_refl. Qed.

Lemma holds_false g t : mu g <> Some t -> holds g t = false.
Proof.
  intros H. unfold holds. destruct (mu g) as [h|]; [|done].
  destruct (Nat.eqb_spec h t); [congruence|done].
Qed.

(** How one statement of [runDeploy] moves the mutex, and that its
    accesses follow the discipline. *)
Lemma runDeploy_lock r t p g n :
  runDeploy r t p g = Some n ->
  owns g t (Deploy p) ->
  (exited (n_mem n) = None -> owns (n_mem n) t (resume Deploy (n_pc n))) /\
  (mu (n_mem n) = mu g \/
   (mu g = None /\ mu (n_mem n) = Some t) \/
   (mu g = Some t /\ mu (n_mem n) = None)) /\
  Forall disciplined (map (pair t) (n_events n)).
Proof.
  intros Hn Ho.
  destruct p; cbn in Hn, Ho;
    repeat match type of Hn with
           | context [match ?x with _ => _ end] => destruct x eqn:?
           | context [if ?x then _ else _] => destruct x eqn:?
           end;
    try discriminate; inversion Hn; subst; clear Hn; cbn;
    rewrite ?(holds_true _ _ Ho), ?(holds_false _ _ Ho);
    (split; [intros; try done; try congruence|]);
    (split; [try (by left); try (right; left; by split);
             try (right; right; by split)|]);
    repeat constructor; try done; try congruence.
Qed.

Lemma main_lock r t p g :
  let n := main r t p g in
  mu (n_mem n) = mu g /\
  (mu g <> Some t -> t = 0%nat ->
   Forall disciplined (map (pair t) (n_events n))).
Proof.
  destruct p as [|q|]; cbn.
  - destruct (_ || _); cbn; split; try done; by repeat constructor.
  - destruct q; cbn; unfold getCurrentBranch, getRepoOwnerAndName;
      repeat match goal with
             | |- context [match ?x with _ => _ end] => destruct x eqn:?
             | |- context [if ?x then _ else _] => destruct x eqn:?
             end; cbn; (split; [done|]); intros Hm ->;
      rewrite ?(holds_false _ _ Hm); by repeat constructor.
  - split; [done|]. intros; by repeat constructor.
Qed.

Lemma owns_frame g g' t t' gr :
  t' <> t ->
  (mu g' = mu g \/
   (mu g = None /\ mu g' = Some t) \/
   (mu g = Some t /\ mu g' = None)) ->
  owns g t' gr -> owns g' t' gr.
Proof.
  intros Hne Hmu Ho.
  destruct gr as [q|q|]; cbn in *; [| destruct (critical q) |];
    destruct Hmu as [E | [[E1 E2] | [E1 E2]]]; rewrite ?E, ?E2 in *;
    try done; try congruence; try (split; [tauto|]; try done; congruence).
Qed.

Lemma owns_same g g' t gr : mu g' = mu g -> owns g t gr -> owns g' t gr.
Proof. intros E. destruct gr as [q|q|]; cbn; by rewrite E. Qed.

Lemma step_keeps_discipline t r c c' evs :
  lock_invariant c ->
  step t r c = Some (c', evs) ->
  lock_invariant c' /\ Forall disciplined evs.
Proof.
  intros Hinv Hstep. unfold step in Hstep.
  destruct (exited (mem c)) eqn:He; [done|].
  destruct (Hinv He) as [Hbound Hown].
  destruct (pool c !! t) as [[p|p|]|] eqn:Hl; try done.
  - (* a statement of main *)
    destruct (Hown _ _ Hl) as [-> Hm].
    destruct (main_lock r 0 p (mem c)) as [Hmu Hev].
    inversion Hstep; subst; clear Hstep. split; [|by apply Hev].
    pose proof (lookup_lt_Some _ _ _ Hl) as Hlen.
    intros He'. cbn [mem pool] in *. split.
    + intros h Hh. rewrite Hmu in Hh. apply Hbound in Hh.
      destruct (n_go _); rewrite ?length_app, length_insert; lia.
    + intros t' gr Hgr. apply (owns_same (mem c)); [done|].
      destruct (decide (t' = 0%nat)) as [->|Hne].
      * assert (gr = resume Main (n_pc (main r 0 p (mem c)))) as ->.
        { destruct (n_go _);
            rewrite ?lookup_app_l in Hgr by (rewrite length_insert; lia);
            rewrite list_lookup_insert_eq in Hgr by done; congruence. }
        destruct (n_pc _); cbn; [by split|done].
      * destruct (n_go _).
        -- destruct (decide (t' < length (pool c))%nat) as [Hlt|Hge].
           ++ rewrite lookup_app_l in Hgr by (rewrite length_insert; lia).
              rewrite list_lookup_insert_ne in Hgr by done. by eapply Hown.
           ++ rewrite lookup_app_r in Hgr by (rewrite length_insert; lia).
              rewrite length_insert in Hgr.
              destruct (t' - length (pool c))%nat eqn:Hd; [|by destruct n].
              inversion Hgr; subst. cbn. intros Hh.
              apply Hbound in Hh. lia.
        -- rewrite list_lookup_insert_ne in Hgr by done. by eapply Hown.
  - (* a statement of runDeploy *)
    destruct (runDeploy r t p (mem c)) as [n|] eqn:Hn; [|done].
    destruct (runDeploy_lock _ _ _ _ _ Hn (Hown _ _ Hl))
      as (Hself & Hmu & Hev).
    inversion Hstep; subst; clear Hstep. split; [|done].
    rewrite (runDeploy_no_go _ _ _ _ _ Hn).
    pose proof (lookup_lt_Some _ _ _ Hl) as Hlen.
    intros He'. cbn [mem pool] in *. split.
    + intros h Hh. rewrite length_insert.
      destruct Hmu as [E | [[E1 E2] | [E1 E2]]].
      * apply Hbound. congruence.
      * congruence.
      * congruence.
    + intros t' gr Hgr. destruct (decide (t' = t)) as [->|Hne].
      * rewrite list_lookup_insert_eq in Hgr by done.
        inversion Hgr; subst. by apply Hself.
      * rewrite list_lookup_insert_ne in Hgr by done.
        eapply owns_frame; [exact Hne | exact Hmu | by eapply Hown].
Qed.

Lemma run_keeps_discipline (s : list (nat * reply)) (c : config) :
  lock_invariant c -> Forall disciplined (snd (run s c)).
Proof.
  revert c. induction s as [|[t r] s IH]; intros c Hinv; [constructor|].
  cbn [run]. destruct (step t r c) as [[c' evs]|] eqn:Hstep; [|by apply IH].
  destruct (step_keeps_discipline _ _ _ _ _ Hinv Hstep) as [Hinv' Hev].
  specialize (IH c' Hinv'). destruct (run s c') as [c'' tr]. cbn in *.
  by apply Forall_app.
Qed.

(** C6, as the program has it.  In every run of the process: [lastSHA] is
    read and written by goroutine 0 only, the one that polls, and without
    the mutex, so the comparison and the store of a poll are never mixed
    with those of another poll; every read and write of [deployCancel] and
    of [deployProcess], and every write of [deployCtx], is made by a
    goroutine that holds the mutex. *)
Theorem lock_discipline (token deploy : string) (s : list (nat * reply)) :
  Forall disciplined (snd (run s (start token deploy))).
Proof.
  apply run_keeps_discipline. intros _. split.
  - intros h Hh. discriminate.
  - intros t gr Hgr. destruct t as [|t]; [|done].
    inversion Hgr; subst. by split.
Qed.

(** C6, as stated, fails: the poll of goroutine 0 reads [lastSHA] at line
    103 while the mutex is free. *)
Lemma lock_not_always_held :
  ~ (forall (s : list (nat * reply)) (t : nat) (f : field) (a : access)
            (locked : bool),
       In (t, EAccess f a locked) (snd (run s (start "tok" "make run"))) ->
       locked = true).
Proof.
  intros H.
  specialize (H superseded_in_backoff 0%nat F_lastSHA Read false).
  rewrite superseded_run in H. cbn [snd] in H.
  enough (false = true) by discriminate. apply H.
  vm_compute. tauto.
Qed.

(** * Further properties *)

(** ** Facts about the string helpers *)

Lemma str_app_cons c (s x : string) : String c s +:+ x = String c (s +:+ x).
Proof. reflexivity. Qed.

Lemma str_app_nil_l (x : string) : "" +:+ x = x.
Proof. reflexivity. Qed.

Lemma str_app_nil_r (s : string) : s +:+ "" = s.
Proof. induction s as [|c s IH]; [done|]. by rewrite str_app_cons, IH. Qed.

Lemma str_app_assoc (a b c : string) : (a +:+ b) +:+ c = a +:+ (b +:+ c).
Proof. induction a as [|x a IH]; [done|]. by rewrite !str_app_cons, IH. Qed.

Lemma str_app_length (a b : string) :
  String.length (a +:+ b) = (String.length a + String.length b)%nat.
Proof.
  induction a as [|x a IH]; [done|]. rewrite str_app_cons. cbn. by rewrite IH.
Qed.

Lemma str_rev_acc (s acc : string) :
  GoStrings.rev acc s = GoStrings.rev "" s +:+ acc.
Proof.
  revert acc. induction s as [|c s IH]; intros acc; cbn [GoStrings.rev];
    [done|].
  by rewrite IH, (IH (String c "")), str_app_assoc.
Qed.

Lemma str_rev_cons c (s : string) :
  GoStrings.rev "" (String c s) = GoStrings.rev "" s +:+ String c "".
Proof. cbn [GoStrings.rev]. apply str_rev_acc. Qed.

Lemma str_rev_app (a b : string) :
  GoStrings.rev "" (a +:+ b) = GoStrings.rev "" b +:+ GoStrings.rev "" a.
Proof.
  induction a as [|c a IH]; [by rewrite str_app_nil_l, str_app_nil_r|].
  by rewrite str_app_cons, !str_rev_cons, IH, str_app_assoc.
Qed.

Lemma str_rev_involutive (s : string) :
  GoStrings.rev "" (GoStrings.rev "" s) = s.
Proof.
  induction s as [|c s IH]; [done|].
  by rewrite str_rev_cons, str_rev_app, IH.
Qed.

Lemma str_rev_length (s : string) :
  String.length (GoStrings.rev "" s) = String.length s.
Proof.
  induction s as [|c s IH]; [done|].
  rewrite str_rev_cons, str_app_length, IH. cbn. lia.
Qed.

Lemma all_space_app (a b : string) :
  all_space a = true -> all_space b = true -> all_space (a +:+ b) = true.
Proof.
  intros Ha Hb. induction a as [|x a IH]; [done|].
  rewrite str_app_cons. cbn in *. apply andb_true_iff in Ha as [Hx Ha].
  rewrite Hx. by apply IH.
Qed.

Lemma all_space_rev (s : string) :
  all_space s = true -> all_space (GoStrings.rev "" s) = true.
Proof.
  induction s as [|c s IH]; [done|]. cbn [all_space].
  intros [Hc Hs]%andb_true_iff. rewrite str_rev_cons.
  apply all_space_app; [by apply IH|]. cbn. by rewrite Hc.
Qed.

Lemma TrimLeft_spaces (ws s : string) :
  all_space ws = true -> GoStrings.TrimLeft (ws +:+ s) = GoStrings.TrimLeft s.
Proof.
  induction ws as [|c ws IH]; [done|]. cbn [all_space].
  intros [Hc Hs]%andb_true_iff. rewrite str_app_cons. cbn [GoStrings.TrimLeft].
  rewrite Hc. by apply IH.
Qed.

Lemma TrimLeft_length (u : string) :
  (String.length (GoStrings.TrimLeft u) <= String.length u)%nat.
Proof.
  induction u as [|d u IH]; cbn; [lia|].
  destruct (GoStrings.isSpace d); cbn; lia.
Qed.

Lemma TrimLeft_fixed c (s : string) :
  GoStrings.TrimLeft (String c s) = String c s -> GoStrings.isSpace c = false.
Proof.
  cbn. destruct (GoStrings.isSpace c); [|done]. intros H.
  pose proof (TrimLeft_length s) as Hl. rewrite H in Hl. cbn in Hl. lia.
Qed.

Lemma TrimLeft_app (s x : string) :
  s <> "" -> GoStrings.TrimLeft s = s ->
  GoStrings.TrimLeft (s +:+ x) = s +:+ x.
Proof.
  destruct s as [|c s]; [done|]. intros _ H.
  rewrite str_app_cons. cbn. by rewrite (TrimLeft_fixed c s H).
Qed.

Lemma TrimLeft_all_space (ws : string) :
  all_space ws = true -> GoStrings.TrimLeft ws = "".
Proof.
  intros H. rewrite <- (str_app_nil_r ws). by rewrite TrimLeft_spaces.
Qed.

Lemma TrimLeft_idem (s : string) :
  GoStrings.TrimLeft (GoStrings.TrimLeft s) = GoStrings.TrimLeft s.
Proof.
  induction s as [|c s IH]; [done|]. cbn.
  destruct (GoStrings.isSpace c) eqn:Hc; [done|]. cbn. by rewrite Hc.
Qed.

(** [TrimSpace] removes the white space after a string that has none at
    its ends. *)
Lemma TrimSpace_output (s ws : string) :
  all_space ws = true ->
  GoStrings.TrimLeft s = s ->
  GoStrings.TrimLeft (GoStrings.rev "" s) = GoStrings.rev "" s ->
  GoStrings.TrimSpace (s +:+ ws) = s.
Proof.
  intros Hws Hl Hr. unfold GoStrings.TrimSpace.
  destruct s as [|c s].
  - rewrite str_app_nil_l, (TrimLeft_all_space ws) by done. done.
  - rewrite TrimLeft_app by done. rewrite str_rev_app.
    rewrite TrimLeft_spaces by by apply all_space_rev.
    rewrite Hr. apply str_rev_involutive.
Qed.

Lemma TrimLeft_rev_TrimLeft (w : string) :
  GoStrings.TrimLeft (GoStrings.rev "" w) = GoStrings.rev "" w ->
  GoStrings.TrimLeft (GoStrings.rev "" (GoStrings.TrimLeft w))
  = GoStrings.rev "" (GoStrings.TrimLeft w).
Proof.
  induction w as [|c w IH]; [done|]. intros H. cbn [GoStrings.TrimLeft].
  destruct (GoStrings.isSpace c) eqn:Hc; [|done].
  apply IH. rewrite str_rev_cons in H.
  destruct (GoStrings.rev "" w) as [|d y] eqn:E; [done|].
  rewrite str_app_cons in H. apply TrimLeft_fixed in H.
  cbn. by rewrite H.
Qed.

(** What [TrimSpace] returns has no white space left at its ends. *)
Lemma TrimSpace_idem (s : string) :
  GoStrings.TrimSpace (GoStrings.TrimSpace s) = GoStrings.TrimSpace s.
Proof.
  unfold GoStrings.TrimSpace.
  set (u := GoStrings.TrimLeft s).
  assert (Hx : GoStrings.TrimLeft
                 (GoStrings.rev "" (GoStrings.TrimLeft (GoStrings.rev "" u)))
               = GoStrings.rev "" (GoStrings.TrimLeft (GoStrings.rev "" u))).
  { apply TrimLeft_rev_TrimLeft. rewrite str_rev_involutive.
    apply TrimLeft_idem. }
  by rewrite Hx, str_rev_involutive, TrimLeft_idem.
Qed.

Lemma HasPrefix_app (p s : string) : GoStrings.HasPrefix (p +:+ s) p = true.
Proof.
  induction p as [|c p IH]; [by destruct s|].
  rewrite str_app_cons. cbn. by rewrite Ascii.eqb_refl.
Qed.

Lemma drop_app (p s : string) :
  GoStrings.drop (String.length p) (p +:+ s) = s.
Proof.
  induction p as [|c p IH]; [by destruct s|]. by rewrite str_app_cons.
Qed.

Lemma TrimSuffix_app (s suffix : string) :
  GoStrings.TrimSuffix (s +:+ suffix) suffix = s.
Proof.
  unfold GoStrings.TrimSuffix. rewrite str_rev_app, HasPrefix_app.
  rewrite <- (str_rev_length suffix), drop_app. apply str_rev_involutive.
Qed.

Lemma Replace1_unfold (s old new : string) :
  GoStrings.Replace1 s old new =
    if GoStrings.HasPrefix s old
    then new +:+ GoStrings.drop (String.length old) s
    else match s with
         | String c r => String c (GoStrings.Replace1 r old new)
         | EmptyString => EmptyString
         end.
Proof. by destruct s. Qed.

Lemma Replace1_prefix (old s new : string) :
  GoStrings.Replace1 (old +:+ s) old new = new +:+ s.
Proof. by rewrite Replace1_unfold, HasPrefix_app, drop_app. Qed.

Lemma Replace1_absent (old s new : string) :
  occurs old s = false -> GoStrings.Replace1 s old new = s.
Proof.
  induction s as [|c s IH]; rewrite Replace1_unfold; cbn [occurs].
  - intros [H _]%orb_false_iff. by rewrite H.
  - intros [H Hs]%orb_false_iff. rewrite H. by rewrite IH.
Qed.

(** The marker of SSH remotes does not occur across the end of the HTTPS
    one. *)
Lemma Replace1_skip_https (p : string) :
  GoStrings.Replace1 ("https://github.com/" +:+ p) "git@github.com:" ""
  = "https://github.com/" +:+ GoStrings.Replace1 p "git@github.com:" "".
Proof. reflexivity. Qed.

(** ** [getRepoOwnerAndName] (lines 51 to 61) *)

(** X1. For an SSH remote of GitHub, "git@github.com:" followed by a path
    and ".git", whatever white space git prints after it,
    [getRepoOwnerAndName] returns the path, provided the path does not
    contain "https://github.com/" (which line 59 would delete). *)
Theorem getRepoOwnerAndName_ssh (r : reply) (p ws : string) :
  r_remote r = Some ("git@github.com:" +:+ p +:+ ".git" +:+ ws) ->
  all_space ws = true ->
  occurs "https://github.com/" p = false ->
  getRepoOwnerAndName r = Some p.
Proof.
  intros Hr Hws Hp. unfold getRepoOwnerAndName. rewrite Hr.
  rewrite <- !str_app_assoc.
  rewrite TrimSpace_output; [|done|reflexivity|].
  - rewrite TrimSuffix_app, Replace1_prefix, str_app_nil_l.
    by rewrite Replace1_absent.
  - rewrite !str_rev_app. reflexivity.
Qed.

Lemma getRepoOwnerAndName_ssh_witness :
  getRepoOwnerAndName (answer "abc123") = Some "fess932/gitwatcher".
Proof.
  apply (getRepoOwnerAndName_ssh (answer "abc123") "fess932/gitwatcher" "");
    reflexivity.
Defined.

(** X2. For an HTTPS remote of GitHub, "https://github.com/" followed by a
    path and ".git", whatever white space git prints after it,
    [getRepoOwnerAndName] returns the path, provided the path does not
    contain "git@github.com:" (which line 58 would delete). *)
Theorem getRepoOwnerAndName_https (r : reply) (p ws : string) :
  r_remote r = Some ("https://github.com/" +:+ p +:+ ".git" +:+ ws) ->
  all_space ws = true ->
  occurs "git@github.com:" p = false ->
  getRepoOwnerAndName r = Some p.
Proof.
  intros Hr Hws Hp. unfold getRepoOwnerAndName. rewrite Hr.
  rewrite <- !str_app_assoc.
  rewrite TrimSpace_output; [|done|reflexivity|].
  - rewrite TrimSuffix_app, Replace1_skip_https.
    rewrite (Replace1_absent "git@github.com:" p) by done.
    by rewrite Replace1_prefix.
  - rewrite !str_rev_app. reflexivity.
Qed.

Lemma getRepoOwnerAndName_https_witness :
  getRepoOwnerAndName
    (with_remote "https://github.com/fess932/gitwatcher.git
" no_answer)
  = Some "fess932/gitwatcher".
Proof.
  apply (getRepoOwnerAndName_https _ "fess932/gitwatcher" "
"); reflexivity.
Defined.

(** ** What the memory never loses *)

Lemma grows_refl g : grows g g.
Proof. by repeat split. Qed.

Lemma grows_trans g1 g2 g3 : grows g1 g2 -> grows g2 g3 -> grows g1 g3.
Proof.
  intros (A1 & A2 & A3 & A4 & A5 & A6 & A7 & A8 & A9)
         (B1 & B2 & B3 & B4 & B5 & B6 & B7 & B8 & B9).
  repeat split; try (by auto); try lia; congruence.
Qed.

Lemma Done_cancel g c i :
  Done g i = true -> Done (set_contexts (<[c := true]> (contexts g)) g) i = true.
Proof.
  unfold Done; cbn. destruct (decide (c = i)) as [->|Hne].
  - destruct (contexts g !! i) eqn:E; [|done].
    by rewrite list_lookup_insert_eq by by eapply lookup_lt_Some.
  - by rewrite list_lookup_insert_ne.
Qed.

Lemma Done_fresh (l : list bool) i b :
  match l !! i with Some b => b | None => false end = true ->
  match (l ++ [b]) !! i with Some b => b | None => false end = true.
Proof.
  destruct (l !! i) eqn:E; [|done]. intros ->.
  by rewrite lookup_app_l, E by by eapply lookup_lt_Some.
Qed.

Lemma Process_of_start g cmd c pid p :
  cmds g !! cmd = Some c ->
  is_Some (Process_of g p) ->
  is_Some (Process_of (set_cmds (<[cmd := start_cmd pid c]> (cmds g)) g) p).
Proof.
  intros Hc. unfold Process_of; cbn. destruct (decide (cmd = p)) as [->|Hne].
  - rewrite list_lookup_insert_eq by by eapply lookup_lt_Some. by eexists.
  - by rewrite list_lookup_insert_ne.
Qed.

Lemma Process_of_snoc g x p :
  is_Some (Process_of g p) ->
  is_Some (Process_of (set_cmds (cmds g ++ [x]) g) p).
Proof.
  unfold Process_of; cbn. destruct (cmds g !! p) eqn:E; [|by intros [? ?]].
  by rewrite lookup_app_l, E by by eapply lookup_lt_Some.
Qed.

Lemma runDeploy_grows r t p g n :
  runDeploy r t p g = Some n -> grows g (n_mem n).
Proof.
  intros Hn.
  destruct p; cbn in Hn;
    repeat match type of Hn with
           | context [match ?x with _ => _ end] => destruct x eqn:?
           | context [if ?x then _ else _] => destruct x eqn:?
           end;
    try discriminate; inversion Hn; subst; clear Hn;
    try apply grows_refl;
    repeat split; cbn; try done; try (by eexists); try lia;
    rewrite ?length_app, ?length_insert; try lia;
    eauto using Done_cancel, Process_of_start, Process_of_snoc.
  - intros i. unfold Done. cbn. apply Done_fresh.
Qed.

Lemma relies_grows g g' p : grows g g' -> relies g p -> relies g' p.
Proof.
  intros (A1 & A2 & A3 & A4 & A5 & A6 & A7 & _) (R1 & R2 & R3).
  repeat split; auto. intros c Hc. specialize (R3 c Hc). lia.
Qed.

Ltac absurd_nil :=
  match goal with
  | H : is_Some ?x, E : ?x = None |- _ => rewrite E in H; by destruct H
  | H : ?x = Some _, E : ?x = None |- _ => congruence
  | H : (?c < length ?l)%nat, E : ?l !! ?c = None |- _ =>
      apply lookup_ge_None in E; lia
  end.

Lemma runDeploy_safe r t p g n :
  runDeploy r t p g = Some n ->
  exited g = None ->
  owns g t (Deploy p) ->
  relies g p ->
  exited (n_mem n) = None /\
  Forall (fun e => is_panic e = false) (n_events n) /\
  (forall p', n_pc n = Some p' -> relies (n_mem n) p').
Proof.
  intros Hn He Ho (R1 & R2 & R3).
  destruct p; cbn in Hn, Ho, R1, R2, R3;
    try specialize (R1 eq_refl); try specialize (R2 eq_refl);
    try (specialize (R3 _ eq_refl));
    repeat match type of Hn with
           | context [match ?x with _ => _ end] => destruct x eqn:?
           | context [if ?x then _ else _] => destruct x eqn:?
           end;
    try discriminate; try absurd_nil;
    inversion Hn; subst; clear Hn; cbn;
    (split; [done|]); (split; [by repeat constructor|]);
    intros p' Hp'; inversion Hp'; subst; clear Hp';
    repeat split; cbn; try done; try (by eexists);
    try (intros ? [= <-]); rewrite ?length_app, ?length_insert; cbn; try lia.
Qed.

(** The statements that touch the contexts are lines 117 and 128. *)
Lemma runDeploy_contexts r t p g n :
  runDeploy r t p g = Some n ->
  match p with
  | D_cancel =>
      deployCtx (n_mem n) = deployCtx g /\
      deployCancel (n_mem n) = deployCancel g /\
      contexts (n_mem n) =
        match deployCancel g with
        | Some k => <[k := true]> (contexts g)
        | None => contexts g
        end
  | D_context =>
      deployCtx (n_mem n) = Some (length (contexts g)) /\
      deployCancel (n_mem n) = Some (length (contexts g)) /\
      contexts (n_mem n) = contexts g ++ [false]
  | _ =>
      deployCtx (n_mem n) = deployCtx g /\
      deployCancel (n_mem n) = deployCancel g /\
      contexts (n_mem n) = contexts g
  end.
Proof.
  intros Hn.
  destruct p; cbn in Hn;
    repeat match type of Hn with
           | context [match ?x with _ => _ end] => destruct x eqn:?
           | context [if ?x then _ else _] => destruct x eqn:?
           end;
    try discriminate; by inversion Hn.
Qed.

Lemma runDeploy_after_cancel r t p g n p' :
  runDeploy r t p g = Some n -> n_pc n = Some p' ->
  after_cancel p' = true -> after_cancel p = true \/ p = D_cancel.
Proof.
  intros Hn Hp Ha.
  destruct p; cbn in Hn;
    repeat match type of Hn with
           | context [match ?x with _ => _ end] => destruct x eqn:?
           | context [if ?x then _ else _] => destruct x eqn:?
           end;
    try discriminate; inversion Hn; subst; clear Hn; cbn in Hp;
    inversion Hp; subst; cbn in *; try discriminate; auto.
Qed.

Lemma main_same r t p g : same_deploy g (n_mem (main r t p g)).
Proof.
  destruct p as [|q|]; cbn.
  - by destruct (_ || _).
  - destruct q; cbn; unfold getCurrentBranch, getRepoOwnerAndName;
      repeat match goal with
             | |- context [match ?x with _ => _ end] => destruct x eqn:?
             | |- context [if ?x then _ else _] => destruct x eqn:?
             end; by cbn.
  - done.
Qed.

Lemma same_deploy_grows g g' : same_deploy g g' -> grows g g'.
Proof.
  intros (E1 & E2 & E3 & E4 & E5 & E6 & E7 & E8).
  unfold grows, Process_of, Done. rewrite E2, E3, E4, E5, E6.
  by repeat split.
Qed.

Lemma main_grows r t p g : grows g (n_mem (main r t p g)).
Proof. apply same_deploy_grows, main_same. Qed.

Lemma step_grows t r c c' evs :
  step t r c = Some (c', evs) -> grows (mem c) (mem c').
Proof.
  unfold step. destruct (exited (mem c)); [done|].
  destruct (pool c !! t) as [[p|p|]|]; try done.
  - intros [= <- _]. apply main_grows.
  - destruct (runDeploy r t p (mem c)) as [n|] eqn:Hn; [|done].
    intros [= <- _]. by eapply runDeploy_grows.
Qed.

Lemma run_grows (s : list (nat * reply)) (c : config) :
  grows (mem c) (mem (fst (run s c))).
Proof.
  revert c. induction s as [|[t r] s IH]; intros c; [apply grows_refl|].
  cbn [run]. destruct (step t r c) as [[c' evs]|] eqn:Hs; [|apply IH].
  specialize (IH c'). destruct (run s c') as [c'' tr]. cbn in *.
  eapply grows_trans; [by eapply step_grows|done].
Qed.

Lemma runDeploy_contexts_cases r t p g n :
  runDeploy r t p g = Some n ->
  (p = D_cancel /\
   deployCtx (n_mem n) = deployCtx g /\
   deployCancel (n_mem n) = deployCancel g /\
   contexts (n_mem n) =
     match deployCancel g with
     | Some k => <[k := true]> (contexts g)
     | None => contexts g
     end) \/
  (p = D_context /\
   n_pc n = Some D_unlock /\
   deployCtx (n_mem n) = Some (length (contexts g)) /\
   deployCancel (n_mem n) = Some (length (contexts g)) /\
   contexts (n_mem n) = contexts g ++ [false]) \/
  (p <> D_cancel /\
   deployCtx (n_mem n) = deployCtx g /\
   deployCancel (n_mem n) = deployCancel g /\
   contexts (n_mem n) = contexts g).
Proof.
  intros Hn. pose proof (runDeploy_contexts _ _ _ _ _ Hn) as H.
  destruct p; try (right; right; by split).
  - left. by split.
  - right; left. split; [done|]. split; [|done]. by inversion Hn.
Qed.

Lemma after_cancel_critical p : after_cancel p = true -> critical p = true.
Proof. by destruct p. Qed.

(** Where a goroutine of [runDeploy] can be after a statement of [main]:
    where it was, or at its first line if it has just been started. *)
Lemma lookup_after_main (l : list goroutine) (x : goroutine) (go : bool)
    (t' : nat) (p' : deploy_pc) :
  (0 < length l)%nat ->
  (forall q, x <> Deploy q) ->
  (if go then <[0%nat := x]> l ++ [Deploy D_lock] else <[0%nat := x]> l) !! t'
    = Some (Deploy p') ->
  l !! t' = Some (Deploy p') \/ p' = D_lock.
Proof.
  intros Hlen Hx Hl. destruct (decide (t' = 0%nat)) as [->|Hne].
  - assert (x = Deploy p'); [|by edestruct Hx].
    destruct go; rewrite ?lookup_app_l in Hl by (rewrite length_insert; lia);
      rewrite list_lookup_insert_eq in Hl by done; congruence.
  - destruct go.
    + destruct (decide (t' < length l)%nat) as [Hlt|Hge].
      * rewrite lookup_app_l in Hl by (rewrite length_insert; lia).
        rewrite list_lookup_insert_ne in Hl by done. by left.
      * rewrite lookup_app_r in Hl by (rewrite length_insert; lia).
        rewrite length_insert in Hl.
        destruct (t' - length l)%nat; [|by destruct n].
        right. by inversion Hl.
    + rewrite list_lookup_insert_ne in Hl by done. by left.
Qed.

Lemma resume_main_not_deploy (o : option main_pc) q : resume Main o <> Deploy q.
Proof. by destruct o. Qed.

Lemma step_sound t r c c' evs :
  lock_invariant c -> sound c -> step t r c = Some (c', evs) ->
  sound c' /\ Forall no_panic_in_deploy evs.
Proof.
  intros Hlock Hsound Hstep. unfold step in Hstep.
  destruct (exited (mem c)) eqn:He; [done|].
  destruct (Hlock He) as [Hbound Hown].
  destruct (Hsound He) as [Hrel (L1 & L2 & L3 & L4)].
  destruct (pool c !! t) as [[p|p|]|] eqn:Hl; try done.
  - (* a statement of main *)
    destruct (Hown _ _ Hl) as [-> Hm].
    pose proof (lookup_lt_Some _ _ _ Hl) as Hlen.
    inversion Hstep; subst; clear Hstep. split.
    + intros He'. cbn [mem pool] in *.
      pose proof (main_same r 0 p (mem c)) as (E1 & E2 & E3 & E4 & E5 & E6 & _).
      split.
      * intros t' p' Hp'.
        apply lookup_after_main in Hp' as [Hp'| ->];
          [| |done|apply resume_main_not_deploy].
        -- eapply relies_grows; [apply main_grows|by eapply Hrel].
        -- by repeat split.
      * unfold one_live. cbn [mem pool]. rewrite E2, E3, E5.
        split; [done|]. split; [done|]. split; [done|].
        intros t' p' Hp' Ha.
        apply lookup_after_main in Hp' as [Hp'| ->];
          [by eapply L4|done|done|apply resume_main_not_deploy].
    + apply Forall_forall. intros [t' e] Hin.
      apply list_elem_of_fmap in Hin as (e' & [= -> ->] & _). done.
  - (* a statement of runDeploy *)
    destruct (runDeploy r t p (mem c)) as [n|] eqn:Hn; [|done].
    pose proof (lookup_lt_Some _ _ _ Hl) as Hlen.
    destruct (runDeploy_safe _ _ _ _ _ Hn He (Hown _ _ Hl) (Hrel _ _ Hl))
      as (He' & Hnp & Hrel').
    inversion Hstep; subst; clear Hstep.
    rewrite (runDeploy_no_go _ _ _ _ _ Hn). split.
    + intros _. cbn [mem pool] in *. split.
      * intros t' p' Hp'. destruct (decide (t' = t)) as [->|Hne].
        -- rewrite list_lookup_insert_eq in Hp' by done.
           apply Hrel'. destruct (n_pc n); by inversion Hp'.
        -- rewrite list_lookup_insert_ne in Hp' by done.
           eapply relies_grows; [by eapply runDeploy_grows|by eapply Hrel].
      * unfold one_live. cbn [mem pool].
        destruct (runDeploy_contexts_cases _ _ _ _ _ Hn)
          as [(-> & C1 & C2 & C3) | [(-> & Hpc & C1 & C2 & C3)
                                    | (Hnc & C1 & C2 & C3)]];
          rewrite C1, C2, C3.
        -- (* line 117 *)
           rewrite L1. split; [done|].
           destruct (deployCtx (mem c)) as [k|] eqn:Hk.
           ++ rewrite length_insert. split; [done|].
              assert (Hall : forall i, (i < length (contexts (mem c)))%nat ->
                        <[k := true]> (contexts (mem c)) !! i = Some true).
              { intros i Hi. destruct (decide (k = i)) as [->|Hki].
                - by rewrite list_lookup_insert_eq.
                - rewrite list_lookup_insert_ne by done. apply L3. lia. }
              split; [intros i Hi; apply Hall; lia|].
              intros t' p' _ _ i Hi. by apply Hall.
           ++ rewrite L2. split; [done|]. split; intros; cbn in *; lia.
        -- (* line 128 *)
           split; [done|]. rewrite length_app. cbn [length].
           split; [lia|].
           assert (Hall : forall i, (i < length (contexts (mem c)))%nat ->
                     (contexts (mem c) ++ [false]) !! i = Some true).
           { intros i Hi. rewrite lookup_app_l by done. by eapply (L4 t). }
           split; [intros i Hi; apply Hall; lia|].
           intros t' p' Hp' Ha i Hi. exfalso.
           destruct (decide (t' = t)) as [->|Hne].
           ++ rewrite list_lookup_insert_eq, Hpc in Hp' by done.
              by inversion Hp'; subst.
           ++ rewrite list_lookup_insert_ne in Hp' by done.
              pose proof (Hown _ _ Hp') as Ho'. pose proof (Hown _ _ Hl) as Ho.
              cbn in Ho, Ho'. rewrite (after_cancel_critical _ Ha) in Ho'.
              congruence.
        -- (* the other lines *)
           split; [done|]. split; [done|]. split; [done|].
           intros t' p' Hp' Ha. destruct (decide (t' = t)) as [->|Hne].
           ++ rewrite list_lookup_insert_eq in Hp' by done.
              assert (Hpc : n_pc n = Some p')
                by (destruct (n_pc n); by inversion Hp').
              destruct (runDeploy_after_cancel _ _ _ _ _ _ Hn Hpc Ha);
                [by eapply L4|done].
           ++ rewrite list_lookup_insert_ne in Hp' by done. by eapply L4.
    + apply Forall_forall. intros [t' e] Hin.
      apply list_elem_of_fmap in Hin as (e' & [= -> ->] & Hin).
      intros Hp. cbn in Hp. rewrite Forall_forall in Hnp.
      rewrite (Hnp _ Hin) in Hp. done.
Qed.

Lemma run_sound (s : list (nat * reply)) (c : config) :
  lock_invariant c -> sound c ->
  lock_invariant (fst (run s c)) /\ sound (fst (run s c)) /\
  Forall no_panic_in_deploy (snd (run s c)).
Proof.
  revert c. induction s as [|[t r] s IH]; intros c Hlock Hsound.
  { cbn. split; [done|]. split; [done|constructor]. }
  cbn [run]. destruct (step t r c) as [[c' evs]|] eqn:Hstep; [|by apply IH].
  destruct (step_keeps_discipline _ _ _ _ _ Hlock Hstep) as [Hlock' _].
  destruct (step_sound _ _ _ _ _ Hlock Hsound Hstep) as [Hsound' Hev].
  destruct (IH c' Hlock' Hsound') as (H1 & H2 & H3).
  destruct (run s c') as [c'' tr]. cbn in *.
  split; [done|]. split; [done|]. by apply Forall_app.
Qed.

Lemma start_sound (token deploy : string) :
  lock_invariant (start token deploy) /\ sound (start token deploy).
Proof.
  split; intros _.
  - split; [by intros h Hh|].
    intros [|t] gr Hgr; [|done]. inversion Hgr; subst. by split.
  - split.
    + intros [|t] p Hp; [|done]. by inversion Hp.
    + repeat split; try done.
      * intros i Hi. cbn in Hi. lia.
      * intros [|t] p Hp; [|done]. by inversion Hp.
Qed.

Lemma superseded_reached :
  reached "tok" "make run" superseded_in_backoff = superseded.
Proof. unfold reached. by rewrite superseded_run. Qed.

(** ** The mutex in every run *)

(** X3. In every run, while the process is alive, at most one goroutine
    stands between a [mu.Lock()] and its [mu.Unlock()] (lines 115 to 129
    and line 151), and it is the holder of the mutex. *)
Theorem mutual_exclusion (token deploy : string) (s : list (nat * reply))
    (t1 t2 : nat) (p1 p2 : deploy_pc) :
  exited (mem (reached token deploy s)) = None ->
  pool (reached token deploy s) !! t1 = Some (Deploy p1) ->
  critical p1 = true ->
  pool (reached token deploy s) !! t2 = Some (Deploy p2) ->
  critical p2 = true ->
  t1 = t2 /\ mu (mem (reached token deploy s)) = Some t1.
Proof.
  intros He H1 C1 H2 C2.
  destruct (start_sound token deploy) as [Hl Hs].
  destruct (run_sound s _ Hl Hs) as (Hlock & _ & _).
  destruct (Hlock He) as [_ Hown].
  pose proof (Hown _ _ H1) as O1. pose proof (Hown _ _ H2) as O2.
  cbn in O1, O2. rewrite C1 in O1. rewrite C2 in O2.
  split; [congruence|done].
Qed.

Lemma mutual_exclusion_witness :
  2%nat = 2%nat /\
  mu (mem (reached "tok" "make run" superseded_in_backoff)) = Some 2%nat.
Proof.
  apply (mutual_exclusion "tok" "make run" superseded_in_backoff
           2 2 D_process D_process);
    rewrite ?superseded_reached; reflexivity.
Defined.

(** X4. In every run, while the process is alive, a locked mutex is held
    by a goroutine of [runDeploy] that stands between its [mu.Lock()] and
    its [mu.Unlock()]: no goroutine returns, or goes on to the retry loop,
    with the mutex locked. *)
Theorem mutex_held_inside_section (token deploy : string)
    (s : list (nat * reply)) (h : nat) :
  exited (mem (reached token deploy s)) = None ->
  mu (mem (reached token deploy s)) = Some h ->
  exists p, pool (reached token deploy s) !! h = Some (Deploy p) /\
            critical p = true.
Proof.
  intros He Hm.
  destruct (start_sound token deploy) as [Hl Hs].
  destruct (run_sound s _ Hl Hs) as (Hlock & _ & _).
  destruct (Hlock He) as [Hbound Hown].
  destruct (lookup_lt_is_Some_2 _ _ (Hbound _ Hm)) as [gr Hgr].
  pose proof (Hown _ _ Hgr) as Ho.
  destruct gr as [q|q|]; cbn in Ho.
  - by destruct Ho.
  - exists q. split; [done|]. by destruct (critical q).
  - done.
Qed.

Lemma mutex_held_inside_section_witness :
  exists p,
    pool (reached "tok" "make run" superseded_in_backoff) !! 2%nat
      = Some (Deploy p) /\
    critical p = true.
Proof.
  apply (mutex_held_inside_section "tok" "make run" superseded_in_backoff 2);
    rewrite ?superseded_reached; reflexivity.
Defined.

(** ** What [runDeploy] never does *)

(** X5. In every run, a panic (or a fatal error) is an event of
    goroutine 0: no goroutine of [runDeploy] dereferences a nil
    [deployCtx] (lines 133, 139, 145) or a nil [deployProcess] (line 125),
    and none unlocks the mutex while it is unlocked (lines 129, 152). *)
Theorem runDeploy_never_panics (token deploy : string)
    (s : list (nat * reply)) :
  Forall no_panic_in_deploy (snd (run s (start token deploy))).
Proof.
  destruct (start_sound token deploy) as [Hl Hs].
  by destruct (run_sound s _ Hl Hs) as (_ & _ & H).
Qed.

(** X6. In every run, while the process is alive, a context that is not
    cancelled is the one that [deployCtx] holds, and [deployCancel] is its
    cancel function: every context made before the current one has been
    cancelled (line 117 precedes line 128 under the same lock). *)
Theorem at_most_one_live_context (token deploy : string)
    (s : list (nat * reply)) (i : nat) :
  exited (mem (reached token deploy s)) = None ->
  contexts (mem (reached token deploy s)) !! i = Some false ->
  deployCtx (mem (reached token deploy s)) = Some i /\
  deployCancel (mem (reached token deploy s)) = Some i.
Proof.
  intros He Hd.
  destruct (start_sound token deploy) as [Hl Hs].
  destruct (run_sound s _ Hl Hs) as (_ & Hsound & _).
  destruct (Hsound He) as [_ (L1 & L2 & L3 & _)].
  fold (reached token deploy s) in *.
  pose proof (lookup_lt_Some _ _ _ Hd) as Hi.
  rewrite L1.
  destruct (deployCtx (mem (reached token deploy s))) as [k|].
  - destruct (decide (i = k)) as [->|Hne]; [done|].
    rewrite L3 in Hd by lia. done.
  - rewrite L2 in Hi. cbn in Hi. lia.
Qed.

Lemma at_most_one_live_context_witness :
  deployCtx (mem (reached "tok" "make run" first_deploy)) = Some 0%nat /\
  deployCancel (mem (reached "tok" "make run" first_deploy)) = Some 0%nat.
Proof.
  apply (at_most_one_live_context "tok" "make run" first_deploy 0);
    vm_compute; reflexivity.
Defined.

(** X7. Along every run, from any configuration: [deployCtx],
    [deployCancel] and [deployProcess] are never set back to nil, a
    command that has a process keeps one, no command and no context is
    dropped, a cancelled context is never live again, and the values of
    the flags do not change. *)
Theorem handles_never_reset (s : list (nat * reply)) (c : config) :
  grows (mem c) (mem (fst (run s c))).
Proof. apply run_grows. Qed.

(** ** The stored hash *)

Lemma main_trimmed r t p g :
  trimmed (lastSHA g) ->
  (forall sha, carried (Main p) = Some sha -> trimmed sha) ->
  trimmed (lastSHA (n_mem (main r t p g))) /\
  forall sha, carried (resume Main (n_pc (main r t p g))) = Some sha ->
              trimmed sha.
Proof.
  intros Hl Hc. destruct p as [|q|]; cbn.
  - destruct (_ || _); cbn; by split.
  - destruct q; cbn; unfold getCurrentBranch, getRepoOwnerAndName;
      repeat match goal with
             | |- context [match ?x with _ => _ end] => destruct x eqn:?
             | |- context [if ?x then _ else _] => destruct x eqn:?
             end; simplify_eq/=;
      (split; [first [done | by apply Hc]|]);
      intros sha Hs; simplify_eq/=;
      first [apply TrimSpace_idem | by apply Hc].
  - by split.
Qed.

Lemma step_trimmed t r c c' evs :
  hashes_trimmed c -> step t r c = Some (c', evs) -> hashes_trimmed c'.
Proof.
  intros [Hl Hc] Hstep. unfold step in Hstep.
  destruct (exited (mem c)); [done|].
  destruct (pool c !! t) as [[p|p|]|] eqn:Hp; try done.
  - inversion Hstep; subst; clear Hstep.
    destruct (main_trimmed r t p (mem c) Hl) as [Hl' Hc'].
    { intros sha Hs. by eapply Hc. }
    pose proof (lookup_lt_Some _ _ _ Hp) as Hlen.
    split; [done|]. cbn [mem pool]. intros t' gr sha Hgr Hs.
    assert (Hcase : gr = resume Main (n_pc (main r t p (mem c))) \/
                    pool c !! t' = Some gr \/ gr = Deploy D_lock).
    { destruct (decide (t' = t)) as [->|Hne].
      - left. destruct (n_go _);
          rewrite ?lookup_app_l in Hgr by (rewrite length_insert; lia);
          rewrite list_lookup_insert_eq in Hgr by done; congruence.
      - right. destruct (n_go _).
        + destruct (decide (t' < length (pool c))%nat) as [Hlt|Hge].
          * rewrite lookup_app_l in Hgr by (rewrite length_insert; lia).
            rewrite list_lookup_insert_ne in Hgr by done. by left.
          * rewrite lookup_app_r in Hgr by (rewrite length_insert; lia).
            rewrite length_insert in Hgr.
            destruct (t' - length (pool c))%nat; [|by destruct n].
            right. by inversion Hgr.
        + rewrite list_lookup_insert_ne in Hgr by done. by left. }
    destruct Hcase as [-> | [Hold | ->]];
      [by apply Hc'|by eapply Hc|discriminate].
  - destruct (runDeploy r t p (mem c)) as [n|] eqn:Hn; [|done].
    inversion Hstep; subst; clear Hstep.
    rewrite (runDeploy_no_go _ _ _ _ _ Hn). split; cbn [mem pool].
    + replace (lastSHA (n_mem n)) with (lastSHA (mem c)); [done|].
      destruct p; cbn in Hn;
        repeat match type of Hn with
               | context [match ?x with _ => _ end] => destruct x eqn:?
               | context [if ?x then _ else _] => destruct x eqn:?
               end; try discriminate; by inversion Hn.
    + intros t' gr sha Hgr Hs.
      pose proof (lookup_lt_Some _ _ _ Hp) as Hlen.
      destruct (decide (t' = t)) as [->|Hne].
      * rewrite list_lookup_insert_eq in Hgr by done.
        inversion Hgr; subst. by destruct (n_pc n).
      * rewrite list_lookup_insert_ne in Hgr by done. by eapply Hc.
Qed.

(** X8. In every run, [lastSHA] holds a trimmed string: the hash is
    stored as [strings.TrimSpace] returned it at line 102, so it never has
    (ASCII) white space at either end. *)
Theorem lastSHA_is_trimmed (token deploy : string) (s : list (nat * reply)) :
  GoStrings.TrimSpace (lastSHA (mem (reached token deploy s)))
  = lastSHA (mem (reached token deploy s)).
Proof.
  unfold reached.
  assert (H : forall c, hashes_trimmed c -> hashes_trimmed (fst (run s c))).
  { induction s as [|[t r] s IH]; intros c Hc; [done|].
    cbn [run]. destruct (step t r c) as [[c' evs]|] eqn:Hstep; [|by apply IH].
    specialize (IH c' (step_trimmed _ _ _ _ _ Hc Hstep)).
    by destruct (run s c'). }
  apply H. split; [done|].
  intros [|t] gr sha Hgr; [|done]. by inversion Hgr; subst.
Qed.

(** ** Every poll *)

Ltac poll_cases r g :=
  destruct (r_branch r) as [b|] eqn:Hb;
  [ destruct (r_remote r) as [u|] eqn:Hu;
    [ destruct (r_request r) eqn:Hq;
      [ destruct (r_do r) as [resp|] eqn:Hd;
        [ destruct (StatusCode resp =? StatusOK) eqn:Hst;
          [ destruct (Decode resp) as [SHA|] eqn:Hj;
            [ destruct (String.eqb (GoStrings.TrimSpace SHA) (lastSHA g))
                eqn:Heq | ] | ] | ] | ] | ] | ].

(** Whatever the answers, a poll leaves the variables of [runDeploy]
    alone, sends the request of [request_of] and nothing else to the
    network, and ends at the head of the loop or in the panic of line
    78. *)
Lemma poll_outcome (c : config) (r : reply) :
  exited (mem c) = None ->
  pool c !! 0%nat = Some (Main (M_check C_branch)) ->
  exists c' tr,
    poll r c = (c', tr) /\
    same_deploy (mem c) (mem c') /\
    filter is_get (events tr) = request_of r (mem c) /\
    ((exited (mem c') = None /\
      pool c' !! 0%nat = Some (Main (M_check C_branch)) /\
      last (events tr) = Some (ESleep (5 * Second))) \/
     (exited (mem c') = Some 2 /\ r_request r = false /\
      last (events tr) = Some EPanic)).
Proof.
  destruct c as [g l]; cbn [mem pool]. intros He Hl.
  pose proof (lookup_lt_Some _ _ _ Hl) as Hlen.
  rewrite (at_pc_id g l 0 _ Hl). unfold poll, request_of.
  unfold getCurrentBranch, getRepoOwnerAndName.
  poll_cases r g;
    repeat first [main_step | main_go_step];
    do 2 eexists; (split; [reflexivity|]); rewrite ?mem_at_pc;
    (split; [by repeat split|]); (split; [reflexivity|]).
  all: try (left; split; [done|]; split; [|done];
            apply at_pc_lookup; rewrite ?length_app; cbn; lia).
  all: right; by repeat split.
Qed.

(** X9. From any state of the memory and of the other goroutines, whoever
    holds the mutex and whatever git and the network answer, the statements
    of one turn of [main]'s loop end: either goroutine 0 is back at the head
    of its loop after the five-second sleep, or [http.NewRequest] failed and
    the process has exited with status 2.  The poll does not touch the
    mutex nor any variable of [runDeploy]. *)
Theorem poll_always_ends (c : config) (r : reply) :
  exited (mem c) = None ->
  pool c !! 0%nat = Some (Main (M_check C_branch)) ->
  exists c' tr,
    poll r c = (c', tr) /\
    same_deploy (mem c) (mem c') /\
    ((exited (mem c') = None /\
      pool c' !! 0%nat = Some (Main (M_check C_branch)) /\
      last (events tr) = Some (ESleep (5 * Second))) \/
     (exited (mem c') = Some 2 /\ r_request r = false /\
      last (events tr) = Some EPanic)).
Proof.
  intros He Hl.
  destruct (poll_outcome c r He Hl) as (c' & tr & Hp & Hs & _ & Hend).
  by exists c', tr.
Qed.

Lemma poll_always_ends_witness :
  exists c' tr,
    poll no_answer polling = (c', tr) /\
    same_deploy (mem polling) (mem c') /\
    ((exited (mem c') = None /\
      pool c' !! 0%nat = Some (Main (M_check C_branch)) /\
      last (events tr) = Some (ESleep (5 * Second))) \/
     (exited (mem c') = Some 2 /\ r_request no_answer = false /\
      last (events tr) = Some EPanic)).
Proof.
  apply (poll_always_ends polling no_answer); reflexivity.
Defined.

(** X10. A poll sends at most one request: none when git fails to give
    the branch or the remote URL (or when [http.NewRequest] fails), and
    otherwise one GET of
    https://api.github.com/repos/<repoURL>/commits/<branch> with the
    header "Bearer <token>". *)
Theorem poll_sends_one_request (c : config) (r : reply) :
  exited (mem c) = None ->
  pool c !! 0%nat = Some (Main (M_check C_branch)) ->
  filter is_get (events (snd (poll r c))) = request_of r (mem c).
Proof.
  intros He Hl.
  destruct (poll_outcome c r He Hl) as (c' & tr & Hp & _ & Hg & _).
  by rewrite Hp.
Qed.

Lemma poll_sends_one_request_witness :
  filter is_get (events (snd (poll (answer "abc123") polling)))
  = [EGet "https://api.github.com/repos/fess932/gitwatcher/commits/main"
          "Bearer tok"].
Proof.
  apply (poll_sends_one_request polling (answer "abc123")); reflexivity.
Defined.

(** X11. The error of [http.NewRequest] is dropped at line 77: when the
    branch and the remote URL are found but the URL does not parse, line
    78 dereferences a nil request, and the process exits with status 2
    before any request is sent.  [lastSHA] is as before, and no goroutine
    runs any more: the running deployments are no longer supervised. *)
Theorem dropped_request_error_panics (c : config) (r : reply) :
  exited (mem c) = None ->
  pool c !! 0%nat = Some (Main (M_check C_branch)) ->
  is_Some (r_branch r) ->
  is_Some (r_remote r) ->
  r_request r = false ->
  exists c' tr,
    poll r c = (c', tr) /\
    exited (mem c') = Some 2 /\
    last (events tr) = Some EPanic /\
    count is_get tr = 0%nat /\
    lastSHA (mem c') = lastSHA (mem c) /\
    forall s, run s c' = (c', []).
Proof.
  destruct c as [g l]; cbn [mem pool]. intros He Hl [b Hb] [u Hu] Hq.
  pose proof (lookup_lt_Some _ _ _ Hl) as Hlen.
  rewrite (at_pc_id g l 0 _ Hl). unfold poll.
  repeat main_step. do 2 eexists. split; [reflexivity|].
  rewrite !mem_at_pc. split; [done|]. split; [done|]. split; [done|].
  split; [done|]. intros s. by eapply run_exited.
Qed.

Lemma dropped_request_error_panics_witness :
  exists c' tr,
    poll (with_bad_url (answer "abc123")) polling = (c', tr) /\
    exited (mem c') = Some 2 /\
    last (events tr) = Some EPanic /\
    count is_get tr = 0%nat /\
    lastSHA (mem c') = lastSHA (mem polling) /\
    forall s, run s c' = (c', []).
Proof.
  apply (dropped_request_error_panics polling (with_bad_url (answer "abc123")));
    try reflexivity; by eexists.
Defined.

(** ** Every teardown (lines 114 to 129) *)

Lemma teardown_result (c : config) (t : nat) (r : reply) :
  exited (mem c) = None ->
  pool c !! t = Some (Deploy D_lock) ->
  mu (mem c) = None ->
  exists c' tr,
    teardown t r c = (c', tr) /\
    pool c' = <[t := Deploy D_select]> (pool c) /\
    exited (mem c') = None /\
    mu (mem c') = None /\
    deployCtx (mem c') = Some (length (contexts (mem c))) /\
    deployCancel (mem c') = Some (length (contexts (mem c))) /\
    contexts (mem c') =
      match deployCancel (mem c) with
      | Some j => <[j := true]> (contexts (mem c))
      | None => contexts (mem c)
      end ++ [false] /\
    lastSHA (mem c') = lastSHA (mem c) /\
    deployProcess (mem c') = deployProcess (mem c) /\
    cmds (mem c') = cmds (mem c) /\
    deployCmd (mem c') = deployCmd (mem c) /\
    filter is_lock (events tr) = [ELock; EUnlock].
Proof.
  destruct c as [g l]; cbn [mem pool]. intros He Hl Hm.
  pose proof (lookup_lt_Some _ _ _ Hl) as Hlen.
  rewrite (at_pc_id g l t _ Hl). unfold teardown.
  destruct (deployCancel g) as [j|] eqn:Hc;
    (destruct (deployProcess g) as [p|] eqn:Hp;
     [ destruct (Process_of g p) as [pid|] eqn:Hq;
       [ destruct (r_pgid r) as [pgid|] eqn:Hr | ] | ]);
    unfold Process_of in *; repeat deploy_step;
    do 2 eexists; (split; [reflexivity|]);
    rewrite ?mem_at_pc; cbn; rewrite ?length_insert; by repeat split.
Qed.

(** X12. Whatever the previous deployment and whatever [Getpgid] answers,
    the first part of [runDeploy], started with the mutex free, gets to
    the retry loop with the mutex released after one lock and one unlock.
    It cancels the context of [deployCancel], if there is one, and puts a
    new context, not cancelled, in both [deployCtx] and [deployCancel];
    it changes neither [lastSHA] nor [deployProcess] nor any command. *)
Theorem teardown_installs_fresh_context (c : config) (t : nat) (r : reply) :
  exited (mem c) = None ->
  pool c !! t = Some (Deploy D_lock) ->
  mu (mem c) = None ->
  exists c' tr,
    teardown t r c = (c', tr) /\
    pool c' = <[t := Deploy D_select]> (pool c) /\
    exited (mem c') = None /\
    mu (mem c') = None /\
    deployCtx (mem c') = Some (length (contexts (mem c))) /\
    deployCancel (mem c') = Some (length (contexts (mem c))) /\
    contexts (mem c') =
      match deployCancel (mem c) with
      | Some j => <[j := true]> (contexts (mem c))
      | None => contexts (mem c)
      end ++ [false] /\
    lastSHA (mem c') = lastSHA (mem c) /\
    deployProcess (mem c') = deployProcess (mem c) /\
    cmds (mem c') = cmds (mem c) /\
    deployCmd (mem c') = deployCmd (mem c) /\
    filter is_lock (events tr) = [ELock; EUnlock].
Proof. exact (teardown_result c t r). Qed.

Lemma teardown_installs_fresh_context_witness :
  exists c' tr,
    teardown 2 no_answer deployed = (c', tr) /\
    deployCtx (mem c') = Some 1%nat /\
    contexts (mem c') = [true; false].
Proof.
  destruct (teardown_installs_fresh_context deployed 2 no_answer
              eq_refl eq_refl eq_refl)
    as (c' & tr & Ht & _ & _ & _ & Hctx & _ & Hk & _).
  exists c', tr. split; [exact Ht|]. split; [exact Hctx|exact Hk].
Defined.

(** X13. When the previous deployment has a started command, the mutex
    is held from line 114 to line 129 across [Getpgid], the signal (sent
    only when [Getpgid] succeeds), the blocking [Wait], the two-second
    sleep and the creation of the context: all of them come between the
    lock and the unlock. *)
Theorem teardown_holds_mutex_throughout
    (c : config) (t : nat) (r : reply) (p : nat) (pid : Z) :
  exited (mem c) = None ->
  pool c !! t = Some (Deploy D_lock) ->
  mu (mem c) = None ->
  deployProcess (mem c) = Some p ->
  Process_of (mem c) p = Some pid ->
  filter in_section (events (snd (teardown t r c))) =
    [ELock; EGetpgid pid] ++
    match r_pgid r with
    | Some pgid => [EKill (- pgid) SIGKILL]
    | None => []
    end ++
    [EWait p; ESleep (2 * Second); EWithCancel (length (contexts (mem c)));
     EUnlock].
Proof.
  destruct c as [g l]; cbn [mem pool]. intros He Hl Hm Hp Hq.
  pose proof (lookup_lt_Some _ _ _ Hl) as Hlen.
  rewrite (at_pc_id g l t _ Hl). unfold teardown, Process_of in *.
  destruct (deployCancel g) as [j|] eqn:Hc;
    destruct (r_pgid r) as [pgid|] eqn:Hr;
    repeat deploy_step; cbn; by rewrite ?length_insert.
Qed.

Lemma teardown_holds_mutex_throughout_witness :
  filter in_section (events (snd (teardown 2 no_answer deployed))) =
    [ELock; EGetpgid 4242; EWait 0; ESleep (2 * Second); EWithCancel 1;
     EUnlock].
Proof.
  apply (teardown_holds_mutex_throughout deployed 2 no_answer 0 4242);
    reflexivity.
Defined.

(** ** Every turn of the retry loop (lines 131 to 163) *)

Lemma attempt_result (c : config) (t ctx : nat) (r : reply) :
  exited (mem c) = None ->
  pool c !! t = Some (Deploy D_select) ->
  mu (mem c) = None ->
  deployCtx (mem c) = Some ctx ->
  Done (mem c) ctx = false ->
  r_pull r = true ->
  exists c' tr,
    attempt t r c = (c', tr) /\
    pool c' = <[t := after_launch r]> (pool c) /\
    phases tr = launched_turn r /\
    deployProcess (mem c') = Some (length (cmds (mem c))) /\
    cmds (mem c') =
      cmds (mem c) ++ [{| cmd_ctx := ctx; cmd_line := deployCmd (mem c);
                          Setpgid := true; Process := r_start r |}] /\
    mu (mem c') = None /\
    exited (mem c') = None /\
    contexts (mem c') = contexts (mem c) /\
    deployCtx (mem c') = Some ctx /\
    lastSHA (mem c') = lastSHA (mem c).
Proof.
  destruct c as [g l]; cbn [mem pool]. intros He Hl Hm Hc Hd Hpull.
  pose proof (lookup_lt_Some _ _ _ Hl) as Hlen.
  rewrite (at_pc_id g l t _ Hl).
  unfold attempt, launched_turn, after_launch, Done in *.
  destruct (r_start r) as [pid|] eqn:Hstart;
    [destruct (r_exit r) eqn:Hx|];
    repeat deploy_step;
    do 2 eexists; (split; [reflexivity|]);
    rewrite ?mem_at_pc; cbn;
    (split; [reflexivity|]); (split; [reflexivity|]);
    (split; [reflexivity|]);
    rewrite ?insert_snoc; by repeat split.
Qed.

(** X14. A turn of the loop whose pull succeeds, under a live context and
    with the mutex free, makes one new command: "sh -c" of the deploy
    flag, bound to the context of [deployCtx], in a process group of its
    own ([Setpgid]), and [deployProcess] points to it whether its start
    succeeds or not.  Its [Process] is the pid when the start succeeds and
    stays nil otherwise.  The goroutine returns when the command exits with
    status 0, without any sleep; otherwise it sleeps [retryDelay] and is
    back at the [select]. *)
Theorem attempt_tracks_command (c : config) (t ctx : nat) (r : reply) :
  exited (mem c) = None ->
  pool c !! t = Some (Deploy D_select) ->
  mu (mem c) = None ->
  deployCtx (mem c) = Some ctx ->
  Done (mem c) ctx = false ->
  r_pull r = true ->
  exists c' tr,
    attempt t r c = (c', tr) /\
    pool c' = <[t := after_launch r]> (pool c) /\
    phases tr = launched_turn r /\
    deployProcess (mem c') = Some (length (cmds (mem c))) /\
    cmds (mem c') =
      cmds (mem c) ++ [{| cmd_ctx := ctx; cmd_line := deployCmd (mem c);
                          Setpgid := true; Process := r_start r |}] /\
    mu (mem c') = None /\
    exited (mem c') = None /\
    contexts (mem c') = contexts (mem c) /\
    deployCtx (mem c') = Some ctx /\
    lastSHA (mem c') = lastSHA (mem c).
Proof. exact (attempt_result c t ctx r). Qed.

Lemma attempt_tracks_command_witness :
  exists c' tr,
    attempt 2 (answer "def456") redeploying = (c', tr) /\
    deployProcess (mem c') = Some 1%nat /\
    phases tr = [Pull; Launch; Exit false; Backoff retryDelay].
Proof.
  destruct (attempt_tracks_command redeploying 2 1 (answer "def456")
              eq_refl eq_refl eq_refl eq_refl eq_refl eq_refl)
    as (c' & tr & Ha & _ & Hph & Hdp & _).
  exists c', tr. split; [exact Ha|]. split; [exact Hdp|exact Hph].
Defined.

(** X15. A turn of the loop whose pull fails changes nothing: no command
    is made, started or tracked, the mutex is not touched, and after the
    sleep of [retryDelay] the goroutine is at the [select] with the
    configuration it had. *)
Theorem failed_pull_launches_nothing (c : config) (t ctx : nat) (r : reply) :
  exited (mem c) = None ->
  pool c !! t = Some (Deploy D_select) ->
  deployCtx (mem c) = Some ctx ->
  Done (mem c) ctx = false ->
  r_pull r = false ->
  exists tr,
    attempt t r c = (c, tr) /\
    phases tr = [Pull; Backoff retryDelay] /\
    filter is_lock (events tr) = [].
Proof.
  destruct c as [g l]; cbn [mem pool]. intros He Hl Hc Hd Hpull.
  pose proof (lookup_lt_Some _ _ _ Hl) as Hlen.
  rewrite (at_pc_id g l t _ Hl). unfold attempt, Done in *.
  repeat deploy_step. eexists. by repeat split.
Qed.

Lemma failed_pull_launches_nothing_witness :
  exists tr,
    attempt 2 no_answer redeploying = (redeploying, tr) /\
    phases tr = [Pull; Backoff retryDelay] /\
    filter is_lock (events tr) = [].
Proof.
  apply (failed_pull_launches_nothing redeploying 2 1 no_answer);
    reflexivity.
Defined.

(** ** From a new commit to the launch *)

(** X16. A poll that fetches a new hash, the teardown by the goroutine it
    starts and the first turn of that goroutine, with a pull that
    succeeds, compose: [lastSHA] is the new hash, the deploy command is
    made under the fresh context, which is live and is the one of
    [deployCtx], [deployProcess] points to it, and goroutine 0 is at the
    head of its loop. *)
Theorem change_leads_to_launch (c : config) (r : reply) (sha : string) :
  exited (mem c) = None ->
  pool c !! 0%nat = Some (Main (M_check C_branch)) ->
  mu (mem c) = None ->
  fetches r sha ->
  sha <> lastSHA (mem c) ->
  r_pull r = true ->
  let t := length (pool c) in
  let ctx := length (contexts (mem c)) in
  exists c3 tr,
    attempt t r (fst (teardown t r (fst (poll r c)))) = (c3, tr) /\
    lastSHA (mem c3) = sha /\
    deployCtx (mem c3) = Some ctx /\
    Done (mem c3) ctx = false /\
    deployProcess (mem c3) = Some (length (cmds (mem c))) /\
    cmds (mem c3) =
      cmds (mem c) ++ [{| cmd_ctx := ctx; cmd_line := deployCmd (mem c);
                          Setpgid := true; Process := r_start r |}] /\
    phases tr = launched_turn r /\
    pool c3 !! t = Some (after_launch r) /\
    pool c3 !! 0%nat = Some (Main (M_check C_branch)).
Proof.
  intros He Hl Hm Hf Hne Hpull t ctx. subst t ctx.
  pose proof (lookup_lt_Some _ _ _ Hl) as Hlen.
  destruct (poll_fetches c r sha He Hl Hf) as (c1 & tr1 & Hp1 & _ & _ & Hch).
  destruct (Hch Hne) as (Hm1 & Hpool1 & _). rewrite Hp1. cbn [fst].
  destruct (teardown_result c1 (length (pool c)) r)
    as (c2 & tr2 & Ht & Hpool2 & He2 & Hmu2 & Hctx2 & _ & Hk2 & Hsha2 & Hdp2
        & Hcmds2 & Hline2 & _).
  { by rewrite Hm1. }
  { rewrite Hpool1. apply lookup_snoc. }
  { by rewrite Hm1. }
  rewrite Ht. cbn [fst]. rewrite Hm1 in *.
  cbn in Hctx2, Hk2, Hsha2, Hdp2, Hcmds2, Hline2.
  assert (Hlive : Done (mem c2) (length (contexts (mem c))) = false).
  { unfold Done. rewrite Hk2.
    destruct (deployCancel (mem c)); [|by rewrite lookup_snoc].
    replace (length (contexts (mem c)))
      with (length (<[n := true]> (contexts (mem c))))
      by apply length_insert.
    by rewrite lookup_snoc. }
  destruct (attempt_result c2 (length (pool c))
              (length (contexts (mem c))) r)
    as (c3 & tr3 & Ha & Hpool3 & Hph & Hdp3 & Hcmds3 & _ & _ & Hk3 & Hctx3
        & Hsha3);
    try done.
  { rewrite Hpool2. apply list_lookup_insert_eq.
    rewrite Hpool1, length_app. cbn. lia. }
  exists c3, tr3. split; [done|].
  split; [by rewrite Hsha3, Hsha2|]. split; [done|].
  split; [unfold Done in *; by rewrite Hk3|].
  split; [by rewrite Hdp3, Hcmds2|].
  split; [by rewrite Hcmds3, Hcmds2, Hline2|].
  split; [done|].
  rewrite Hpool3, Hpool2, Hpool1. split.
  - apply list_lookup_insert_eq. rewrite length_insert, length_app. cbn. lia.
  - rewrite !list_lookup_insert_ne by lia.
    by rewrite lookup_app_l.
Qed.

Lemma change_leads_to_launch_witness :
  exists c3 tr,
    attempt 1 (answer "abc123")
      (fst (teardown 1 (answer "abc123")
              (fst (poll (answer "abc123") polling)))) = (c3, tr) /\
    lastSHA (mem c3) = "abc123" /\
    deployProcess (mem c3) = Some 0%nat /\
    pool c3 !! 1%nat = Some (Deploy D_select).
Proof.
  destruct (change_leads_to_launch polling (answer "abc123") "abc123"
              eq_refl eq_refl eq_refl (answer_fetches "abc123"))
    as (c3 & tr & Ha & Hs & _ & _ & Hdp & _ & _ & Hp & _);
    [vm_compute; discriminate|reflexivity|].
  exists c3, tr. split; [exact Ha|]. split; [exact Hs|].
  split; [exact Hdp|exact Hp].
Defined.

(** ** Polling is never blocked *)

Lemma main_returns_dead r t p g :
  exited (n_mem (main r t p g)) = None ->
  exists p', n_pc (main r t p g) = Some p'.
Proof.
  destruct p as [|q|]; cbn.
  - destruct (_ || _); cbn; [done|by eexists].
  - destruct (n_pc (check r t q g)); [by eexists|].
    destruct (exited (n_mem (check r t q g))) eqn:E; cbn; [by rewrite E|].
    by eexists.
  - by eexists.
Qed.

Lemma step_main_runs t r c c' evs :
  main_runs c -> step t r c = Some (c', evs) -> main_runs c'.
Proof.
  intros Hmain Hstep. unfold step in Hstep.
  destruct (exited (mem c)) eqn:He; [done|].
  destruct (Hmain He) as [p0 Hp0].
  pose proof (lookup_lt_Some _ _ _ Hp0) as Hlen.
  destruct (pool c !! t) as [[p|p|]|] eqn:Hl; try done.
  - inversion Hstep; subst; clear Hstep. intros He'. cbn [mem pool] in *.
    destruct (decide (t = 0%nat)) as [->|Hne].
    + destruct (main_returns_dead _ _ _ _ He') as [p' Hp'].
      exists p'. rewrite Hp'. cbn.
      destruct (n_go _);
        rewrite ?lookup_app_l by (rewrite length_insert; lia);
        by rewrite list_lookup_insert_eq.
    + exists p0.
      destruct (n_go _);
        rewrite ?lookup_app_l by (rewrite length_insert; lia);
        by rewrite list_lookup_insert_ne.
  - destruct (runDeploy r t p (mem c)) as [n|] eqn:Hn; [|done].
    inversion Hstep; subst; clear Hstep. intros _. cbn [mem pool].
    rewrite (runDeploy_no_go _ _ _ _ _ Hn). exists p0.
    rewrite list_lookup_insert_ne; [done|]. intros ->. congruence.
Qed.

Lemma run_main_runs (s : list (nat * reply)) (c : config) :
  main_runs c -> main_runs (fst (run s c)).
Proof.
  revert c. induction s as [|[t r] s IH]; intros c Hc; [done|].
  cbn [run]. destruct (step t r c) as [[c' evs]|] eqn:Hstep; [|by apply IH].
  specialize (IH c' (step_main_runs _ _ _ _ _ Hc Hstep)).
  by destruct (run s c').
Qed.

(** X17. In every run, while the process is alive, goroutine 0 can take
    its next statement at once: it is inside [main], which never takes the
    mutex and never waits for a goroutine of [runDeploy], so polling goes
    on whatever the deploys do. *)
Theorem main_never_blocks (token deploy : string) (s : list (nat * reply))
    (r : reply) :
  exited (mem (reached token deploy s)) = None ->
  is_Some (step 0 r (reached token deploy s)).
Proof.
  intros He.
  assert (Hm : main_runs (reached token deploy s)).
  { apply run_main_runs. intros _. by exists M_parse. }
  destruct (Hm He) as [p Hp]. unfold step. rewrite He, Hp. by eexists.
Qed.

Lemma main_never_blocks_witness :
  is_Some (step 0 no_answer (reached "tok" "make run" superseded_in_backoff)).
Proof.
  apply (main_never_blocks "tok" "make run" superseded_in_backoff no_answer).
  rewrite superseded_reached. reflexivity.
Defined.
